(** * Cost aggregation of pkg/svc/aws_api.go

    A shallow embedding of the aggregation functions of the AWS cost
    server: [getAwsMetricAmount], [SupportCostForAWS], [aggregationForAWS],
    [getGroupedAwsKeyIndex], [getGroupedAwsProducts],
    [getGroupedAwsProjects], [getEntityAwsProducts] and the part of
    [GetProductInsights] that follows the fetch.

    Conventions of the embedding:
    - Go's [float64] is the kernel's binary64 [float]; [<], [>], [==] and
      [!=] are the IEEE comparisons [ltb] and [eqb], literals are rounded
      to the nearest binary64 as the Go compiler does.
    - A Go [map] is a [gmap]; reading a missing key gives the zero value.
      A [range] over a map visits the entries in an order the language
      leaves open: the order is a component of the run-time ([range_map]),
      any rearrangement of the entries.
    - A pointer the code dereferences is an [option]; a run-time panic
      (nil dereference, index out of range) is the result [None].
    - A Go result pair [(v, err)] is a pair whose second component is an
      [option error]. *)

From Stdlib Require Import ZArith Ascii PrimFloat FloatOps FloatAxioms.
From Stdlib Require Uint63.
From stdpp Require Import gmap strings list fin_maps.

#[local] Set Warnings "-inexact-float".
Open Scope float_scope.

(** ** Data of the Cost Explorer SDK read by the code *)

Definition error := string.

(** [ceTypes.MetricValue]: [Amount] and [Unit] are [*string]. *)
Record MetricValue := {
  Amount : option string;
  Unit : option string;
}.

(** The zero value a Go map read yields for a missing key. *)
Definition zeroMetricValue : MetricValue := {| Amount := None; Unit := None |}.

(** [ceTypes.Group] *)
Record Group := {
  Keys : list string;
  Metrics : gmap string MetricValue;
}.

(** [ceTypes.DateInterval]; the code reads [Start] only. *)
Record DateInterval := {
  Start : option string;
}.

(** [ceTypes.ResultByTime] *)
Record ResultByTime := {
  TimePeriod : option DateInterval;
  Groups : list Group;
  Total : gmap string MetricValue;
}.

(** [string(ceTypes.MetricNetAmortizedCost)] *)
Definition MetricNetAmortizedCost : string := "NetAmortizedCost".

(** ** Data of the repository *)

Record SupportCostThreshold := {
  CostMultiplier : float;
  CostStartInterval : float;
  CostEndInterval : float;
}.

Definition AwsAccountType := string.

Definition DeveloperAccount : AwsAccountType := "DEVELOPER".
Definition BusinessAccount : AwsAccountType := "BUSINESS".
Definition EnterpriseAccount : AwsAccountType := "ENTERPRISE".

Record AwsAccount := {
  AccountType : AwsAccountType;
  MinSupportCost : float;
  SupportCostThresholds : list SupportCostThreshold;
}.

Definition zeroAwsAccount : AwsAccount :=
  {| AccountType := EmptyString; MinSupportCost := 0; SupportCostThresholds := [] |}.

Definition mkThreshold (m s e : float) : SupportCostThreshold :=
  {| CostMultiplier := m; CostStartInterval := s; CostEndInterval := e |}.

Definition developerProfile : AwsAccount :=
  {| AccountType := DeveloperAccount;
     MinSupportCost := 29.00;
     SupportCostThresholds := [ mkThreshold 0.03 0 0 ] |}.

Definition businessProfile : AwsAccount :=
  {| AccountType := BusinessAccount;
     MinSupportCost := 100.00;
     SupportCostThresholds :=
       [ mkThreshold 0.10 0 10000.00;
         mkThreshold 0.07 10000.00 80000.00;
         mkThreshold 0.05 80000.00 250000.00;
         mkThreshold 0.03 250000.00 0 ] |}.

Definition enterpriseProfile : AwsAccount :=
  {| AccountType := EnterpriseAccount;
     MinSupportCost := 15000.00;
     SupportCostThresholds :=
       [ mkThreshold 0.10 0 150000.00;
         mkThreshold 0.07 150000.00 500000.00;
         mkThreshold 0.05 500000.00 1000000.00;
         mkThreshold 0.03 1000000.00 0 ] |}.

Definition AwsAccounts : gmap AwsAccountType AwsAccount :=
  <[EnterpriseAccount := enterpriseProfile]>
    (<[BusinessAccount := businessProfile]>
      (<[DeveloperAccount := developerProfile]> ∅)).

(** [pb.DateAggregation] *)
Record DateAggregation := {
  Date : string;
  DAmount : float;
}.

(** [pb.ProductCost]: [Id] and [Aggregation]. *)
Record ProductCost := {
  PId : string;
  PAggregation : list DateAggregation;
}.

(** [pb.ProjectCost]: [Id] and [Aggregation]. *)
Record ProjectCost := {
  JId : string;
  JAggregation : list DateAggregation;
}.

(** ** The run-time the code calls into

    [strconv.ParseFloat], [math.Round], the [viper] configuration, the
    order in which [range] walks a map and [utils.ChangeOfEntity] are not
    code of this file: they are the operations of a [GoEnv]. *)

(** The errors of [strconv]: [ErrSyntax] and [ErrRange]. *)
Inductive NumError := ErrSyntax | ErrRange.

Class GoEnv := {
  (** [strconv.ParseFloat(s, 64)]; a string that is not syntactically
      well-formed gives [0] and [ErrSyntax], a well-formed one out of
      range gives an infinity and [ErrRange] *)
  ParseFloat : string → float * option NumError;
  ParseFloat_syntax : ∀ s,
    (ParseFloat s).2 = Some ErrSyntax → (ParseFloat s).1 = 0;
  (** [math.Round]: the nearest integer, halves away from zero *)
  Round : float → float;
  Round_zero : Round 0 = 0;
  (** [viper.GetBool] and [viper.GetString] *)
  GetBool : string → bool;
  GetString : string → string;
  (** the entries of a map in the order a [range] visits them *)
  range_map : ∀ A : Type, gmap string A → list (string * A);
  range_map_perm : ∀ (A : Type) (m : gmap string A),
    range_map A m ≡ₚ map_to_list m;
  (** [pb.ChangeStatistic], its zero value and [utils.ChangeOfEntity] *)
  ChangeStatistic : Type;
  zeroChange : ChangeStatistic;
  ChangeOfEntity : list float → ChangeStatistic;
}.

Arguments range_map {_ _} _.

(** A left fold that stops at the first panic. *)
Fixpoint foldlM {A B : Type} (f : B → A → option B) (b : B) (l : list A)
  : option B :=
  match l with
  | [] => Some b
  | a :: l' => b' ← f b a; foldlM f b' l'
  end.

(** [float64(n)] for a length [n]. *)
Definition float_of_nat (n : nat) : float :=
  of_uint63 (Uint63.of_Z (Z.of_nat n)).

Section Aggregation.
Context `{env : GoEnv}.

(** [getAwsMetricAmount]: the dereference of [metric.Amount] can panic. *)
Definition getAwsMetricAmount (metric : MetricValue) : option float :=
  s ← Amount metric;
  let amount := fst (ParseFloat s) in
  if GetBool "cost.round" then Some (Round amount) else Some amount.

(** The first loop of [SupportCostForAWS]: the sum of the net amortized
    cost of the periods. *)
Definition sumStep (sum : float) (result : ResultByTime) : option float :=
  s ← Amount (default zeroMetricValue (Total result !! MetricNetAmortizedCost));
  let amount := fst (ParseFloat s) in
  Some (sum + amount).

Definition sumDateAggregationAmounts (results : list ResultByTime)
  : option float :=
  foldlM sumStep 0 results.

(** The loop over the thresholds of [SupportCostForAWS]. *)
Fixpoint walkThresholds (sum supportCost : float)
    (thresholds : list SupportCostThreshold) : float :=
  match thresholds with
  | [] => supportCost
  | costThreshold :: rest =>
    if sum <? CostStartInterval costThreshold then supportCost
    else if negb (CostEndInterval costThreshold =? 0) then
      if sum <? CostEndInterval costThreshold then
        supportCost
        + (sum - CostStartInterval costThreshold) * CostMultiplier costThreshold
      else if CostEndInterval costThreshold <? sum then
        walkThresholds sum
          (supportCost
           + (CostEndInterval costThreshold - CostStartInterval costThreshold)
             * CostMultiplier costThreshold)
          rest
      else walkThresholds sum supportCost rest
    else
      supportCost
      + (sum - CostStartInterval costThreshold) * CostMultiplier costThreshold
  end.

(** The surcharge for a given sum. *)
Definition supportCostOfSum (account : AwsAccount) (sum : float)
  : option (float * option error) :=
  first ← head (SupportCostThresholds account);
  if sum * CostMultiplier first <? MinSupportCost account then
    Some (MinSupportCost account, None)
  else
    Some (walkThresholds sum 0 (SupportCostThresholds account), None).

Definition SupportCostForAWS (account : AwsAccount)
    (results : list ResultByTime) : option (float * option error) :=
  sum ← sumDateAggregationAmounts results;
  supportCostOfSum account sum.

(** The loop over [result.Total] of [aggregationForAWS]: every metric
    visited overwrites [value.Amount]. *)
Definition totalStep (supCost : float) (n : nat) (_ : float)
    (entry : string * MetricValue) : option float :=
  amount ← getAwsMetricAmount entry.2;
  Some (amount + supCost / float_of_nat n).

(** One turn of the loop over [results] of [aggregationForAWS]. *)
Definition dateStep (supCost : float) (n : nat)
    (retDateAggregation : list DateAggregation) (result : ResultByTime)
  : option (list DateAggregation) :=
  period ← TimePeriod result;
  date ← Start period;
  amount ← foldlM (totalStep supCost n) 0 (range_map (Total result));
  if 0 <? amount then
    Some (retDateAggregation ++ [ {| Date := date; DAmount := amount |} ])
  else Some retDateAggregation.

(** The loop of [aggregationForAWS] for a given surcharge. *)
Definition dateSeries (supCost : float) (results : list ResultByTime)
  : option (list DateAggregation) :=
  foldlM (dateStep supCost (length results)) [] results.

(** The surcharge [aggregationForAWS] distributes: [0.00] unless the
    configuration enables [support.cost]. *)
Definition supCostOf (results : list ResultByTime) : option float :=
  if GetBool "support.cost" then
    let awsTest : AwsAccountType := GetString "account.type" in
    r ← SupportCostForAWS (default zeroAwsAccount (AwsAccounts !! awsTest))
          results;
    Some r.1
  else Some 0.

Definition aggregationForAWS (results : list ResultByTime)
  : option (list DateAggregation * option error) :=
  supCost ← supCostOf results;
  retDateAggregation ← dateSeries supCost results;
  Some (retDateAggregation, None).

(** [getGroupedAwsKeyIndex]: the body of the inner loop. *)
Definition keyIndexStep (keys : gmap string nat) (group : Group)
  : option (gmap string nat) :=
  key ← Keys group !! 0%nat;
  match keys !! key with
  | Some _ => Some keys
  | None => Some (<[key := size keys]> keys)
  end.

Definition getGroupedAwsKeyIndex (results : list ResultByTime)
  : option (gmap string nat) :=
  foldlM (λ keys result, foldlM keyIndexStep keys (Groups result)) ∅ results.

(** [costs[index] = x]; an index out of range panics. *)
Definition store {A : Type} (l : list A) (i : nat) (x : A) : option (list A) :=
  if decide (i < length l)%nat then Some (<[i := x]> l) else None.

(** The loop over [group.Metrics]: the last metric visited is the amount
    of the group, [0] when there is none. *)
Definition metricStep (_ : float) (entry : string * MetricValue)
  : option float :=
  getAwsMetricAmount entry.2.

Definition groupAmount (group : Group) : option float :=
  foldlM metricStep 0 (range_map (Metrics group)).

(** [getGroupedAwsProducts]: the slice [costs] is a slice of pointers,
    [nil] until the first loop fills it. *)
Definition initProductStep (costs : list (option ProductCost))
    (entry : string * nat) : option (list (option ProductCost)) :=
  store costs entry.2 (Some {| PId := entry.1; PAggregation := [] |}).

Definition productGroupStep (keys : gmap string nat) (result : ResultByTime)
    (costs : list (option ProductCost)) (group : Group)
  : option (list (option ProductCost)) :=
  key ← Keys group !! 0%nat;
  let index := default 0%nat (keys !! key) in
  cost ← costs !! index;
  period ← TimePeriod result;
  date ← Start period;
  amount ← groupAmount group;
  cost' ← (if 0 <? amount then
             c ← cost;
             Some (Some {| PId := PId c;
                           PAggregation := PAggregation c
                             ++ [ {| Date := date; DAmount := amount |} ] |})
           else Some cost);
  store costs index cost'.

Definition productFilterStep (costs : list (option ProductCost))
    (filteredCosts : list ProductCost) (entry : string * nat)
  : option (list ProductCost) :=
  cost ← costs !! entry.2;
  c ← cost;
  if decide (0 < length (PAggregation c))%nat then Some (filteredCosts ++ [c])
  else Some filteredCosts.

Definition getGroupedAwsProducts (results : list ResultByTime)
  : option (list ProductCost * option error) :=
  keys ← getGroupedAwsKeyIndex results;
  costs ← foldlM initProductStep (replicate (size keys) None) (range_map keys);
  costs ← foldlM (λ costs result,
                    foldlM (productGroupStep keys result) costs (Groups result))
            costs results;
  filteredCosts ← foldlM (productFilterStep costs) [] (range_map keys);
  Some (filteredCosts, None).

(** [getGroupedAwsProjects]: the same loops over [pb.ProjectCost]. *)
Definition initProjectStep (costs : list (option ProjectCost))
    (entry : string * nat) : option (list (option ProjectCost)) :=
  store costs entry.2 (Some {| JId := entry.1; JAggregation := [] |}).

Definition projectGroupStep (keys : gmap string nat) (result : ResultByTime)
    (costs : list (option ProjectCost)) (group : Group)
  : option (list (option ProjectCost)) :=
  key ← Keys group !! 0%nat;
  let index := default 0%nat (keys !! key) in
  cost ← costs !! index;
  period ← TimePeriod result;
  date ← Start period;
  amount ← groupAmount group;
  cost' ← (if 0 <? amount then
             c ← cost;
             Some (Some {| JId := JId c;
                           JAggregation := JAggregation c
                             ++ [ {| Date := date; DAmount := amount |} ] |})
           else Some cost);
  store costs index cost'.

Definition projectFilterStep (costs : list (option ProjectCost))
    (filteredCosts : list ProjectCost) (entry : string * nat)
  : option (list ProjectCost) :=
  cost ← costs !! entry.2;
  c ← cost;
  if decide (0 < length (JAggregation c))%nat then Some (filteredCosts ++ [c])
  else Some filteredCosts.

Definition getGroupedAwsProjects (results : list ResultByTime)
  : option (list ProjectCost * option error) :=
  keys ← getGroupedAwsKeyIndex results;
  costs ← foldlM initProjectStep (replicate (size keys) None) (range_map keys);
  costs ← foldlM (λ costs result,
                    foldlM (projectGroupStep keys result) costs (Groups result))
            costs results;
  filteredCosts ← foldlM (projectFilterStep costs) [] (range_map keys);
  Some (filteredCosts, None).

(** [pb.Entity]: [Id], [Aggregation] and [Change]; the field [Entities]
    is set to an empty record and never read. *)
Record Entity := {
  EId : string;
  EAggregation : list float;
  EChange : ChangeStatistic;
}.

Definition initEntityStep (costs : list (option Entity))
    (entry : string * nat) : option (list (option Entity)) :=
  store costs entry.2
    (Some {| EId := entry.1; EAggregation := [0; 0]; EChange := zeroChange |}).

(** [costs[index].Aggregation[b] = costs[index].Aggregation[b] + amount] *)
Definition addToBucket (costs : list (option Entity)) (index b : nat)
    (amount : float) : option (list (option Entity)) :=
  cost ← costs !! index;
  e ← cost;
  old ← EAggregation e !! b;
  aggregation ← store (EAggregation e) b (old + amount);
  store costs index
    (Some {| EId := EId e; EAggregation := aggregation; EChange := EChange e |}).

Definition entityGroupStep (keys : gmap string nat) (midPoint i : nat)
    (costs : list (option Entity)) (group : Group)
  : option (list (option Entity)) :=
  amount ← groupAmount group;
  key ← Keys group !! 0%nat;
  let index := default 0%nat (keys !! key) in
  if decide (midPoint ≤ i)%nat then addToBucket costs index 1 amount
  else addToBucket costs index 0 amount.

Definition entityFilterStep (costs : list (option Entity))
    (filteredCosts : list Entity) (entry : string * nat)
  : option (list Entity) :=
  cost ← costs !! entry.2;
  e ← cost;
  before ← EAggregation e !! 0%nat;
  bothZero ← (if before =? 0 then
                after ← EAggregation e !! 1%nat; Some (after =? 0)
              else Some false);
  if negb bothZero then
    Some (filteredCosts
          ++ [ {| EId := EId e; EAggregation := EAggregation e;
                  EChange := ChangeOfEntity (EAggregation e) |} ])
  else Some filteredCosts.

(** The periods with their position, as [for i, result := range results]
    visits them. *)
Definition indexed {A : Type} (l : list A) : list (nat * A) :=
  zip (seq 0 (length l)) l.

Definition getEntityAwsProducts (results : list ResultByTime)
  : option (list Entity * option error) :=
  keys ← getGroupedAwsKeyIndex results;
  costs ← foldlM initEntityStep (replicate (size keys) None) (range_map keys);
  let midPoint := (length results / 2)%nat in
  costs ← foldlM (λ costs ir,
                    foldlM (entityGroupStep keys midPoint ir.1) costs
                      (Groups ir.2))
            costs (indexed results);
  filteredCosts ← foldlM (entityFilterStep costs) [] (range_map keys);
  Some (filteredCosts, None).

(** The [pb.Entity] that [GetProductInsights] returns: its [Change] is a
    pointer and its [Entities] a record that holds the [Service] entities,
    both nil until they are set. *)
Record InsightEntity := {
  IId : string;
  IAggregation : list float;
  IChange : option ChangeStatistic;
  IService : option (list Entity);
}.

(** The body of the loop over [entity.Entities.Service]. *)
Definition aggregateStep (totals : float * float) (e : Entity)
  : option (float * float) :=
  before ← EAggregation e !! 0%nat;
  after ← EAggregation e !! 1%nat;
  Some (totals.1 + before, totals.2 + after).

(** [GetProductInsights] from the response of the cost source on: the
    entity of the product [req.Product] for the periods
    [resp.ResultsByTime]. *)
Definition productInsightsOf (product : string) (results : list ResultByTime)
  : option (InsightEntity * option error) :=
  r ← getEntityAwsProducts results;
  match r.2 with
  | Some err =>
    Some ({| IId := product; IAggregation := []; IChange := None;
             IService := None |}, Some err)
  | None =>
    totals ← foldlM aggregateStep (0, 0) r.1;
    let aggregation := [totals.1; totals.2] in
    Some ({| IId := product; IAggregation := aggregation;
             IChange := Some (ChangeOfEntity aggregation);
             IService := Some r.1 |}, None)
  end.

End Aggregation.

Close Scope float_scope.

(** * What the theorems are stated with

    The views of the input the code reads, and the results written as
    functions of these views. *)

Section Specification.
Context `{env : GoEnv}.

(** What [aggregationForAWS] reads of a period whose total holds one
    metric: the start date and the amount of that metric. *)
Definition readsPeriod (result : ResultByTime) (view : string * float) : Prop :=
  TimePeriod result = Some {| Start := Some view.1 |}
  ∧ ∃ name metric, Total result = {[ name := metric ]}
                   ∧ getAwsMetricAmount metric = Some view.2.

(** The point of a period: its amount plus an equal share of the
    surcharge, kept when strictly positive. *)
Definition pointOf (s : float) (n : nat) (view : string * float)
  : option DateAggregation :=
  let amount := (view.2 + s / float_of_nat n)%float in
  if (0 <? amount)%float then Some {| Date := view.1; DAmount := amount |}
  else None.

(** The distinct keys of a scan in the order they are first seen. *)
Definition seeKey (seen : list string) (k : string) : list string :=
  if decide (k ∈ seen) then seen else seen ++ [k].

Definition firstSeen (l : list string) : list string := foldl seeKey [] l.

(** The first key of every group, periods then groups. *)
Definition readsKeys (results : list ResultByTime) (ks : list string) : Prop :=
  Forall2 (λ g k, Keys g !! 0 = Some k) (results ≫= Groups) ks.

(** [keys] numbers the keys of [seen] by their position. *)
Definition indexes (keys : gmap string nat) (seen : list string) : Prop :=
  (∀ k i, keys !! k = Some i ↔ seen !! i = Some k) ∧ size keys = length seen.

(** The keys with their slots. *)
Definition slots (ks : list string) : list (string * nat) :=
  imap (λ i k, (k, i)) ks.

(** The points of key [k] among the entries [(date, (key, amount))] of a
    scan: one for each entry of [k] whose amount is strictly positive. *)
Definition pointFor (k : string) (e : string * (string * float))
  : option DateAggregation :=
  if decide (e.2.1 = k) then
    if (0 <? e.2.2)%float then Some {| Date := e.1; DAmount := e.2.2 |}
    else None
  else None.

Definition seriesOf (k : string) (es : list (string * (string * float)))
  : list DateAggregation :=
  omap (pointFor k) es.

(** The series of [k] as a product cost, unless it is empty. *)
Definition productOf (es : list (string * (string * float))) (k : string)
  : option ProductCost :=
  if decide (0 < length (seriesOf k es))
  then Some {| PId := k; PAggregation := seriesOf k es |}
  else None.

(** The entries of the periods, periods then groups. *)
Definition entriesOf {D : Type} (views : list (D * list (string * float)))
  : list (D * (string * float)) :=
  v ← views; pair v.1 <$> v.2.

Definition keysOf {D : Type} (views : list (D * list (string * float)))
  : list string :=
  (λ e, e.2.1) <$> entriesOf views.

(** What the grouped aggregators read of a group: its first key and the
    amount of the last metric the loop over [group.Metrics] visits. *)
Definition readsGroup (g : Group) (v : string * float) : Prop :=
  Keys g !! 0 = Some v.1 ∧ groupAmount g = Some v.2.

(** And of a period: its start date and its groups. *)
Definition readsGrouped (result : ResultByTime)
    (view : string * list (string * float)) : Prop :=
  TimePeriod result = Some {| Start := Some view.1 |}
  ∧ Forall2 readsGroup (Groups result) view.2.

(** The pairs of a period and one of its groups, as the nested loops
    visit them, against the entries. *)
Definition readsPair (p : ResultByTime * Group)
    (e : string * (string * float)) : Prop :=
  TimePeriod p.1 = Some {| Start := Some e.1 |} ∧ readsGroup p.2 e.2.

(** The slice [costs] once the entries [es] are processed. *)
Definition productsOf (ks : list string) (es : list (string * (string * float)))
  : list (option ProductCost) :=
  (λ k, Some {| PId := k; PAggregation := seriesOf k es |}) <$> ks.

(** The amounts of key [k] in the groups of the periods [gviews], in the
    order of the scan, whatever their sign. *)
Definition amountOf (k : string) (v : string * float) : option float :=
  if decide (v.1 = k) then Some v.2 else None.

Definition amountsOf (k : string) (gviews : list (list (string * float)))
  : list float :=
  gv ← gviews; omap (amountOf k) gv.

(** A bucket: the amounts added one after the other to [0]. *)
Definition bucketTotal (amounts : list float) : float :=
  foldl (λ acc a, (acc + a)%float) 0%float amounts.

(** The first [mid] periods feed [before], the other periods [after]. *)
Definition beforeOf (mid : nat) (gviews : list (list (string * float)))
    (k : string) : float :=
  bucketTotal (amountsOf k (take mid gviews)).

Definition afterOf (mid : nat) (gviews : list (list (string * float)))
    (k : string) : float :=
  bucketTotal (amountsOf k (drop mid gviews)).

Definition bothZero (before after : float) : bool :=
  (before =? 0)%float && (after =? 0)%float.

(** The amounts of [k] among indexed entries [(i, (key, amount))] on one
    side of [mid]. *)
Definition sideAmount (mid : nat) (after : bool) (k : string)
    (e : nat * (string * float)) : option float :=
  if decide (e.2.1 = k) then
    if decide (bool_decide (mid ≤ e.1) = after) then Some e.2.2 else None
  else None.

Definition sideTotal (mid : nat) (after : bool) (k : string)
    (es : list (nat * (string * float))) : float :=
  bucketTotal (omap (sideAmount mid after k) es).

(** The entity of [k], unless both buckets are zero. *)
Definition entityOf (mid : nat) (gviews : list (list (string * float)))
    (k : string) : option Entity :=
  let aggregation := [beforeOf mid gviews k; afterOf mid gviews k] in
  if bothZero (beforeOf mid gviews k) (afterOf mid gviews k) then None
  else Some {| EId := k; EAggregation := aggregation;
               EChange := ChangeOfEntity aggregation |}.

Definition readsEntity (results : list ResultByTime)
    (gviews : list (list (string * float))) : Prop :=
  Forall2 (λ r gv, Forall2 readsGroup (Groups r) gv) results gviews.

(** The slice [costs] once the indexed entries [es] are processed. *)
Definition entitiesOf (mid : nat) (ks : list string)
    (es : list (nat * (string * float))) : list (option Entity) :=
  (λ k, Some {| EId := k;
                EAggregation := [sideTotal mid false k es;
                                 sideTotal mid true k es];
                EChange := zeroChange |}) <$> ks.

(** The pairs of an indexed period and one of its groups against the
    indexed entries. *)
Definition readsIndexedPair (p : (nat * ResultByTime) * Group)
    (e : nat * (string * float)) : Prop :=
  p.1.1 = e.1 ∧ readsGroup p.2 e.2.

(** Input the code can read without a panic: no nil [Amount], a start
    date in every period, a first key in every group. *)
Definition wfMetrics (ms : gmap string MetricValue) : Prop :=
  map_Forall (λ _ m, is_Some (Amount m)) ms.

Definition wfGroup (g : Group) : Prop :=
  Keys g ≠ [] ∧ wfMetrics (Metrics g).

Definition wfPeriod (r : ResultByTime) : Prop :=
  (∃ date, TimePeriod r = Some {| Start := Some date |})
  ∧ wfMetrics (Total r)
  ∧ Forall wfGroup (Groups r).

(** The surcharge reads the net amortized cost of every period. *)
Definition hasNetAmortizedCost (r : ResultByTime) : Prop :=
  is_Some (Total r !! MetricNetAmortizedCost).

(** When [support.cost] is on, [account.type] names a profile and the
    periods hold the net amortized cost. *)
Definition wfConfig (results : list ResultByTime) : Prop :=
  GetBool "support.cost" = true →
  is_Some (AwsAccounts !! GetString "account.type")
  ∧ Forall hasNetAmortizedCost results.

(** The start date of a period, when the two pointers to it are set. *)
Definition startOf (r : ResultByTime) : option string :=
  TimePeriod r ≫= Start.

(** What [aggregationForAWS] dereferences in a period, what the surcharge
    dereferences, and what the grouped series dereference. *)
Definition datedPeriod (r : ResultByTime) : Prop :=
  is_Some (startOf r) ∧ wfMetrics (Total r).

Definition netCostRead (r : ResultByTime) : Prop :=
  is_Some (Amount (default zeroMetricValue
                     (Total r !! MetricNetAmortizedCost))).

Definition groupedPeriodRead (r : ResultByTime) : Prop :=
  Forall wfGroup (Groups r) ∧ (Groups r ≠ [] → is_Some (startOf r)).

(** The surcharge is computed when [support.cost] is off, or when the
    profile of [account.type] has a bracket and every period holds the net
    amortized cost. *)
Definition surchargeRead (results : list ResultByTime) : Prop :=
  GetBool "support.cost" = true →
  SupportCostThresholds
    (default zeroAwsAccount (AwsAccounts !! GetString "account.type")) ≠ []
  ∧ Forall netCostRead results.

(** A product cost as a project cost. *)
Definition toProject (c : ProductCost) : ProjectCost :=
  {| JId := PId c; JAggregation := PAggregation c |}.

Definition toProjects (l : list ProductCost) : list ProjectCost :=
  toProject <$> l.

Definition toProjectSlots (costs : list (option ProductCost))
  : list (option ProjectCost) :=
  (λ cost : option ProductCost, toProject <$> cost) <$> costs.

(** The walk goes past a bracket whose upper bound is set and not above
    the sum, adding the span of the bracket when the bound is below the
    sum; it ends in a bracket that starts above the sum, or that holds the
    sum. *)
Definition passes (sum : float) (t : SupportCostThreshold) : Prop :=
  (sum <? CostStartInterval t)%float = false
  ∧ (CostEndInterval t =? 0)%float = false
  ∧ (sum <? CostEndInterval t)%float = false.

Definition passBracket (sum supportCost : float) (t : SupportCostThreshold)
  : float :=
  if (CostEndInterval t <? sum)%float then
    (supportCost
     + (CostEndInterval t - CostStartInterval t) * CostMultiplier t)%float
  else supportCost.

Definition holdsSum (sum : float) (t : SupportCostThreshold) : Prop :=
  (sum <? CostStartInterval t)%float = false
  ∧ ((CostEndInterval t =? 0)%float = true
     ∨ (sum <? CostEndInterval t)%float = true).

(** What the surcharge reads of a period: the number [strconv.ParseFloat]
    gives for the amount of the net amortized cost in its total. *)
Definition readsNetCost (r : ResultByTime) (amount : float) : Prop :=
  ∃ s, Total r !! MetricNetAmortizedCost ≫= Amount = Some s
       ∧ (ParseFloat s).1 = amount.

(** The summed total of the periods: their amounts added one after the
    other, in period order, starting from [0]. *)
Definition summedTotal (amounts : list float) : float :=
  foldl PrimFloat.add 0%float amounts.

End Specification.

(** ** A run-time for the examples

    [parseDecimal] reads the plain decimal literals (an optional sign,
    digits, an optional fraction) and rounds to the nearest binary64, ties
    to even, as [strconv.ParseFloat] does on them; any other string is
    reported as a syntax error with the value [0].  [roundHalfAway] is
    [math.Round]: to the nearest integer, halves away from zero. *)

Module Runtime.
#[local] Open Scope float_scope.

Definition digitOf (a : ascii) : option Z :=
  let n := Z.of_nat (nat_of_ascii a) in
  if ((48 <=? n) && (n <=? 57))%Z then Some (n - 48)%Z else None.

(** The digits at the head of [s]: their value after [acc], how many
    there are, and the rest of [s]. *)
Fixpoint readDigits (s : string) (acc : Z) (count : nat) : Z * nat * string :=
  match s with
  | String a s' =>
    match digitOf a with
    | Some d => readDigits s' (10 * acc + d)%Z (S count)
    | None => (acc, count, s)
    end
  | EmptyString => (acc, count, s)
  end.

(** [m / 10^k] rounded to binary64: the quotient keeps more than 64 bits
    and a sticky bit for the remainder, so one rounding step is exact. *)
Definition roundQuotient (m : Z) (k : nat) : float :=
  let den := (10 ^ Z.of_nat k)%Z in
  let shift := (64 + Z.log2 den + 1)%Z in
  let num := (m * 2 ^ shift)%Z in
  let q := (num / den)%Z in
  let sticky := if (num mod den =? 0)%Z then 0%Z else 1%Z in
  SF2Prim (SpecFloat.binary_normalize prec emax (2 * q + sticky)
             (- (shift + 1)) false).

Definition syntaxError : float * option NumError := (0, Some ErrSyntax).

Definition parseUnsigned (negative : bool) (s : string)
  : float * option NumError :=
  let '(whole, n1, rest) := readDigits s 0 0 in
  let '(all, n2, rest') :=
    match rest with
    | String "."%char frac => readDigits frac whole 0
    | _ => (whole, 0%nat, rest)
    end in
  match rest' with
  | EmptyString =>
    if decide (n1 + n2 = 0)%nat then syntaxError
    else
      let f := roundQuotient all n2 in
      let f := if negative then - f else f in
      if is_infinity f then (f, Some ErrRange) else (f, None)
  | _ => syntaxError
  end.

Definition parseDecimal (s : string) : float * option NumError :=
  match s with
  | String "-"%char s' => parseUnsigned true s'
  | String "+"%char s' => parseUnsigned false s'
  | _ => parseUnsigned false s
  end.

Definition roundHalfAway (x : float) : float :=
  match Prim2SF x with
  | SpecFloat.S754_finite s m e =>
    if (0 <=? e)%Z then x
    else
      let d := (2 ^ (- e))%Z in
      let q := (Z.pos m / d)%Z in
      let n := if (d <=? 2 * (Z.pos m mod d))%Z then (q + 1)%Z else q in
      SF2Prim (SpecFloat.binary_normalize prec emax (if s then - n else n)%Z
                 0 s)
  | _ => x
  end.

(** The configuration: [cost.round], [support.cost], [account.type]. *)
Definition getBool (round support : bool) (key : string) : bool :=
  if decide (key = "cost.round") then round
  else if decide (key = "support.cost") then support
  else false.

Definition getString (accountType : string) (key : string) : string :=
  if decide (key = "account.type") then accountType else EmptyString.

(** [before, after]: the change is kept as the pair it is computed from. *)
Definition changeOfEntity (aggregation : list float) : list float :=
  aggregation.

Lemma parseUnsigned_syntax (negative : bool) (s : string) :
  (parseUnsigned negative s).2 = Some ErrSyntax →
  (parseUnsigned negative s).1 = 0%float.
Proof.
  unfold parseUnsigned.
  destruct (readDigits s 0 0) as [[whole n1] rest].
  destruct (match rest with
            | String "."%char frac => readDigits frac whole 0
            | _ => (whole, 0%nat, rest)
            end) as [[all n2] rest'].
  destruct rest'; [|done]. case_decide; [done|].
  by destruct (is_infinity _).
Qed.

Lemma parseDecimal_syntax (s : string) :
  (parseDecimal s).2 = Some ErrSyntax → (parseDecimal s).1 = 0%float.
Proof.
  unfold parseDecimal.
  destruct s as [|a s]; [apply parseUnsigned_syntax|].
  destruct (decide (a = "-"%char)) as [->|]; [apply parseUnsigned_syntax|].
  destruct (decide (a = "+"%char)) as [->|]; [apply parseUnsigned_syntax|].
  set (r := parseUnsigned false (String a s)).
  assert (Hr : match a with
               | "-"%char => parseUnsigned true s
               | "+"%char => parseUnsigned false s
               | _ => r
               end = r).
  { destruct a as [[] [] [] [] [] [] [] []]; done. }
  rewrite Hr. apply parseUnsigned_syntax.
Qed.

(** A run-time whose [range] visits a map in the order of [map_to_list],
    and one that visits it in the opposite order. *)
Definition ordered (round support : bool) (accountType : string) : GoEnv :=
  {| ParseFloat := parseDecimal;
     ParseFloat_syntax := parseDecimal_syntax;
     Round := roundHalfAway;
     Round_zero := eq_refl;
     GetBool := getBool round support;
     GetString := getString accountType;
     range_map := λ A m, map_to_list m;
     range_map_perm := λ A m, reflexivity (map_to_list m);
     ChangeStatistic := list float;
     zeroChange := [];
     ChangeOfEntity := changeOfEntity |}.

Definition reversed (round support : bool) (accountType : string) : GoEnv :=
  {| ParseFloat := parseDecimal;
     ParseFloat_syntax := parseDecimal_syntax;
     Round := roundHalfAway;
     Round_zero := eq_refl;
     GetBool := getBool round support;
     GetString := getString accountType;
     range_map := λ A m, reverse (map_to_list m);
     range_map_perm := λ A m, reverse_Permutation (map_to_list m);
     ChangeStatistic := list float;
     zeroChange := [];
     ChangeOfEntity := changeOfEntity |}.

End Runtime.

(** ** Example inputs *)

Definition metric (amount : string) : MetricValue :=
  {| Amount := Some amount; Unit := Some "USD" |}.

(** A period without groups whose total holds the net amortized cost. *)
Definition period (date amount : string) : ResultByTime :=
  {| TimePeriod := Some {| Start := Some date |};
     Groups := [];
     Total := {[ MetricNetAmortizedCost := metric amount ]} |}.

(** A period without groups whose total holds the unblended cost only. *)
Definition unblendedPeriod (date amount : string) : ResultByTime :=
  {| TimePeriod := Some {| Start := Some date |};
     Groups := [];
     Total := {[ "UnblendedCost" := metric amount ]} |}.

Definition group (key amount : string) : Group :=
  {| Keys := [key]; Metrics := {[ "UnblendedCost" := metric amount ]} |}.

Definition groupedPeriod (date : string) (groups : list Group) : ResultByTime :=
  {| TimePeriod := Some {| Start := Some date |};
     Groups := groups;
     Total := ∅ |}.

Definition exampleGrouped : list ResultByTime :=
  [ groupedPeriod "2021-01-01" [group "EC2" "10"; group "S3" "3"];
    groupedPeriod "2021-01-02" [group "EC2" "-5"; group "RDS" "1"] ].

Definition exampleEntities : list ResultByTime :=
  [ groupedPeriod "2021-01-01" [group "EC2" "10"; group "S3" "0"];
    groupedPeriod "2021-01-02"
      [group "EC2" "-5"; group "S3" "-3"; group "RDS" "0"];
    groupedPeriod "2021-01-03" [group "EC2" "-50"] ].

(** Reads a concrete input: the relations are conjunctions and lists of
    equations that hold by evaluation. *)
Ltac reads_input :=
  repeat match goal with
    | |- List.Forall2 _ [] [] => apply List.Forall2_nil
    | |- List.Forall2 _ (_ :: _) (_ :: _) => apply List.Forall2_cons
    | |- List.Forall _ [] => apply List.Forall_nil
    | |- List.Forall _ (_ :: _) => apply List.Forall_cons
    | |- List.Forall2 _ _ _ => progress simpl
    | |- List.Forall _ _ => progress simpl
    | |- map_Forall _ ∅ => apply map_Forall_empty
    | |- map_Forall _ {[ _ := _ ]} => apply map_Forall_singleton
    | |- map_Forall _ _ => progress simpl
    | |- _ = _ => vm_compute; reflexivity
    | |- _ ≠ _ => discriminate
    | |- is_Some _ => eexists; vm_compute; reflexivity
    | |- ∃ _, _ => eexists; vm_compute; reflexivity
    | |- _ => split
    end.

(** * Theorems *)

(** ** The tiered surcharge *)

Section Surcharge.
Context `{env : GoEnv}.

Lemma SupportCostForAWS_sum (account : AwsAccount) (results : list ResultByTime)
    (sum : float) :
  sumDateAggregationAmounts results = Some sum →
  SupportCostForAWS account results = supportCostOfSum account sum.
Proof. intros Hsum. unfold SupportCostForAWS. by rewrite Hsum. Qed.

(** C1, as the code computes it: for the Business brackets with minimum
    100, a summed total of 50000 gives the binary64 value of
    [10000*0.10 + 40000*0.07], which is [3800.0000000000005], one unit in
    the last place above 3800; a summed total of 5000 gives exactly 500. *)
Theorem business_surcharge_examples (r50000 r5000 : list ResultByTime) :
  sumDateAggregationAmounts r50000 = Some 50000%float →
  sumDateAggregationAmounts r5000 = Some 5000%float →
  SupportCostForAWS businessProfile r50000
    = Some ((10000 * 0.10 + 40000 * 0.07)%float, None)
  ∧ (10000 * 0.10 + 40000 * 0.07 = 3800.0000000000005)%float
  ∧ (3800.0000000000005 =? 3800)%float = false
  ∧ (3800.0000000000005 = next_up 3800)%float
  ∧ SupportCostForAWS businessProfile r5000 = Some (500%float, None).
Proof.
  intros H1 H2.
  rewrite (SupportCostForAWS_sum _ _ _ H1), (SupportCostForAWS_sum _ _ _ H2).
  repeat split; vm_compute; reflexivity.
Qed.

(** The first loop of [SupportCostForAWS] adds the amounts it reads to the
    sum it starts from, in period order. *)
Lemma sumLoop (results : list ResultByTime) (amounts : list float) :
  Forall2 readsNetCost results amounts →
  ∀ sum, foldlM sumStep sum results
         = Some (foldl PrimFloat.add sum amounts).
Proof.
  induction 1 as [|r amount results amounts (s & Hs & Hamount) _ IH];
    intros sum; [reflexivity|].
  assert (sumStep sum r = Some (sum + amount)%float) as Hstep.
  { unfold sumStep.
    destruct (Total r !! MetricNetAmortizedCost) as [m|]; [|discriminate].
    simpl in Hs. simpl. rewrite Hs. simpl. by rewrite Hamount. }
  simpl. rewrite Hstep. simpl. apply IH.
Qed.

Lemma sumDateAggregationAmounts_total (results : list ResultByTime)
    (amounts : list float) :
  Forall2 readsNetCost results amounts →
  sumDateAggregationAmounts results = Some (summedTotal amounts).
Proof. intros Hreads. by apply sumLoop. Qed.

(** C3: for every profile and every sequence of periods, when the sum of
    the periods' net amortized cost amounts times the rate of the first
    bracket is below the minimum of the profile, the surcharge is exactly
    that minimum, and it is so whatever brackets follow the first: no
    bracket takes part in the result. *)
Theorem surcharge_floor (account : AwsAccount) (results : list ResultByTime)
    (amounts : list float) (first : SupportCostThreshold) :
  Forall2 readsNetCost results amounts →
  head (SupportCostThresholds account) = Some first →
  (summedTotal amounts * CostMultiplier first <? MinSupportCost account)%float
    = true →
  SupportCostForAWS account results = Some (MinSupportCost account, None)
  ∧ ∀ brackets : list SupportCostThreshold,
      SupportCostForAWS
        {| AccountType := AccountType account;
           MinSupportCost := MinSupportCost account;
           SupportCostThresholds := first :: brackets |} results
      = Some (MinSupportCost account, None).
Proof.
  intros Hreads Hfirst Hlt.
  pose proof (sumDateAggregationAmounts_total _ _ Hreads) as Hsum.
  split; [|intros brackets];
    rewrite (SupportCostForAWS_sum _ _ _ Hsum); unfold supportCostOfSum.
  - rewrite Hfirst. simpl. by rewrite Hlt.
  - simpl. by rewrite Hlt.
Qed.

End Surcharge.

Lemma business_surcharge_examples_witness :
  @SupportCostForAWS (Runtime.ordered false false "BUSINESS") businessProfile
    [period "2021-01-01" "20000"; period "2021-01-02" "30000"]
    = Some ((10000 * 0.10 + 40000 * 0.07)%float, None)
  ∧ @SupportCostForAWS (Runtime.ordered false false "BUSINESS") businessProfile
      [period "2021-01-01" "5000"]
    = Some (500%float, None).
Proof.
  pose proof (@business_surcharge_examples
                (Runtime.ordered false false "BUSINESS")
                [period "2021-01-01" "20000"; period "2021-01-02" "30000"]
                [period "2021-01-01" "5000"]) as H.
  destruct H as (H1 & _ & _ & _ & H5); [vm_compute; reflexivity ..|].
  split; assumption.
Defined.

(** C1 as stated fails: the surcharge for 50000 is not 3800. *)
Lemma business_surcharge_50000_not_3800 :
  @SupportCostForAWS (Runtime.ordered false false "BUSINESS") businessProfile
    [period "2021-01-01" "50000"] ≠ Some (3800%float, None).
Proof.
  intros H.
  apply (f_equal (λ r, match r with
                       | Some (x, _) => (x =? 3800)%float
                       | None => true
                       end)) in H.
  vm_compute in H. discriminate.
Qed.

Lemma surcharge_floor_witness :
  @SupportCostForAWS (Runtime.ordered false false "BUSINESS") businessProfile
    [period "2021-01-01" "300"; period "2021-01-02" "450"]
  = Some (100%float, None)
  ∧ @SupportCostForAWS (Runtime.ordered false false "BUSINESS")
      {| AccountType := BusinessAccount;
         MinSupportCost := (-1)%float;
         SupportCostThresholds := [ mkThreshold 0.10 0 10000 ] |}
      [period "2021-01-01" "-100"]
    = Some ((-1)%float, None).
Proof.
  split.
  - apply (@surcharge_floor (Runtime.ordered false false "BUSINESS")
             businessProfile
             [period "2021-01-01" "300"; period "2021-01-02" "450"]
             [300%float; 450%float] (mkThreshold 0.10 0 10000)).
    + apply List.Forall2_cons; [|apply List.Forall2_cons];
        [ exists "300"; split; vm_compute; reflexivity
        | exists "450"; split; vm_compute; reflexivity
        | apply List.Forall2_nil ].
    + reflexivity.
    + vm_compute. reflexivity.
  - apply (@surcharge_floor (Runtime.ordered false false "BUSINESS")
             {| AccountType := BusinessAccount;
                MinSupportCost := (-1)%float;
                SupportCostThresholds := [ mkThreshold 0.10 0 10000 ] |}
             [period "2021-01-01" "-100"]
             [(-100)%float] (mkThreshold 0.10 0 10000)).
    + apply List.Forall2_cons; [|apply List.Forall2_nil].
      exists "-100". split; vm_compute; reflexivity.
    + reflexivity.
    + vm_compute. reflexivity.
Defined.

(** A sum that is neither below nor above the upper bound of a bracket
    passes the bracket without adding anything. *)
Lemma walkThresholds_on_bound (sum supportCost : float)
    (costThreshold : SupportCostThreshold) (rest : list SupportCostThreshold) :
  (sum <? CostStartInterval costThreshold)%float = false →
  (CostEndInterval costThreshold =? 0)%float = false →
  (sum <? CostEndInterval costThreshold)%float = false →
  (CostEndInterval costThreshold <? sum)%float = false →
  walkThresholds sum supportCost (costThreshold :: rest)
  = walkThresholds sum supportCost rest.
Proof. intros Hstart Hend Hbelow Habove. simpl. by rewrite Hstart, Hend, Hbelow, Habove. Qed.

(** C2 fails on the code at a bracket boundary: a sum equal to the upper
    bound of a bracket is neither below nor above it, so the bracket adds
    nothing.  For the Business profile the surcharge is [999.9...] at 9999,
    [0] at 10000 and [1000.07...] at 10001; for the Enterprise profile it
    is [0] at 150000. *)
Theorem surcharge_gap_at_bracket_boundary :
  @SupportCostForAWS (Runtime.ordered false false "BUSINESS") businessProfile
    [period "2021-01-01" "9999"]
    = Some (999.90000000000009%float, None)
  ∧ @SupportCostForAWS (Runtime.ordered false false "BUSINESS") businessProfile
      [period "2021-01-01" "10000"]
    = Some (0%float, None)
  ∧ @SupportCostForAWS (Runtime.ordered false false "BUSINESS") businessProfile
      [period "2021-01-01" "10001"]
    = Some (1000.0700000000001%float, None)
  ∧ (0 <? 999.90000000000009)%float = true
  ∧ supportCostOfSum enterpriseProfile 150000%float = Some (0%float, None).
Proof. repeat split; vm_compute; reflexivity. Qed.

(** ** Facts on the run-time and on loops *)

Section Loops.
Context `{env : GoEnv}.

Lemma range_map_singleton {A : Type} (k : string) (x : A) :
  range_map ({[ k := x ]} : gmap string A) = [(k, x)].
Proof.
  apply Permutation_singleton_r.
  rewrite range_map_perm, map_to_list_singleton. reflexivity.
Qed.

Lemma range_map_empty {A : Type} : range_map (∅ : gmap string A) = [].
Proof.
  apply Permutation_nil_r. rewrite range_map_perm, map_to_list_empty.
  reflexivity.
Qed.

Lemma foldlM_app {A B : Type} (f : B → A → option B) (b : B) (l1 l2 : list A) :
  foldlM f b (l1 ++ l2) = foldlM f b l1 ≫= λ b', foldlM f b' l2.
Proof.
  revert b. induction l1 as [|a l1 IH]; intros b; simpl; [done|].
  destruct (f b a) as [b'|]; simpl; [apply IH | done].
Qed.

Lemma groupAmount_single (g : Group) (name : string) (m : MetricValue) :
  Metrics g = {[ name := m ]} → groupAmount g = getAwsMetricAmount m.
Proof.
  intros Hm. unfold groupAmount. rewrite Hm, range_map_singleton. simpl.
  unfold metricStep. simpl. by destruct (getAwsMetricAmount m).
Qed.

Lemma groupAmount_none (g : Group) :
  Metrics g = ∅ → groupAmount g = Some 0%float.
Proof. intros Hm. unfold groupAmount. by rewrite Hm, range_map_empty. Qed.

End Loops.

(** ** The date series *)

Section DateSeries.
Context `{env : GoEnv}.

Lemma dateStep_reads (s : float) (n : nat) (ret : list DateAggregation)
    (result : ResultByTime) (view : string * float) :
  readsPeriod result view →
  dateStep s n ret result = Some (ret ++ option_list (pointOf s n view)).
Proof.
  intros (Hdate & name & metric & Htotal & Hamount).
  unfold dateStep, pointOf. rewrite Hdate, Htotal, range_map_singleton. simpl.
  unfold totalStep. simpl. rewrite Hamount. simpl.
  destruct (0 <? view.2 + s / float_of_nat n)%float; simpl;
    [done | by rewrite app_nil_r].
Qed.

Lemma dateLoop_reads (s : float) (n : nat) (results : list ResultByTime)
    (views : list (string * float)) (ret : list DateAggregation) :
  Forall2 readsPeriod results views →
  foldlM (dateStep s n) ret results = Some (ret ++ omap (pointOf s n) views).
Proof.
  intros Hreads. revert ret.
  induction Hreads as [|result view results views Hhead _ IH]; intros ret; simpl.
  - by rewrite app_nil_r.
  - rewrite (dateStep_reads _ _ _ _ _ Hhead). simpl. rewrite IH.
    destruct (pointOf s n view); simpl; by rewrite <- ?app_assoc.
Qed.

Lemma supCostOf_disabled (results : list ResultByTime) :
  GetBool "support.cost" = false → supCostOf results = Some 0%float.
Proof. intros Hoff. unfold supCostOf. by rewrite Hoff. Qed.

Lemma aggregationForAWS_reads (results : list ResultByTime)
    (views : list (string * float)) (s : float) :
  Forall2 readsPeriod results views →
  supCostOf results = Some s →
  aggregationForAWS results
  = Some (omap (pointOf s (length results)) views, None).
Proof.
  intros Hreads Hs. unfold aggregationForAWS, dateSeries. rewrite Hs. simpl.
  by rewrite (dateLoop_reads _ _ _ _ [] Hreads).
Qed.

(** C4: with [s] the surcharge of the run, which is [0] when
    [support.cost] is off, the date series holds, in the order of the
    periods, the point of each period whose amount plus [s / periodCount]
    is strictly positive, and no other point. *)
Theorem date_series_points (results : list ResultByTime)
    (views : list (string * float)) (s : float) :
  Forall2 readsPeriod results views →
  supCostOf results = Some s →
  aggregationForAWS results
    = Some (omap (pointOf s (length results)) views, None)
  ∧ (GetBool "support.cost" = false → s = 0%float)
  ∧ (∀ point, point ∈ omap (pointOf s (length results)) views →
       (0 <? DAmount point)%float = true).
Proof.
  intros Hreads Hs. split; [|split].
  - by apply aggregationForAWS_reads.
  - intros Hoff. rewrite (supCostOf_disabled _ Hoff) in Hs. congruence.
  - intros point (view & _ & Hpoint)%list_elem_of_omap.
    unfold pointOf in Hpoint.
    destruct (0 <? view.2 + s / float_of_nat (length results))%float eqn:Hpos;
      [|done].
    injection Hpoint as <-. done.
Qed.

(** C9: a metric whose amount is not syntactically a number has the
    amount zero, with and without [cost.round]; the amount of a group
    that holds it is zero, and the date series of periods that hold such
    a metric is computed as for an amount of zero, with no error. *)
Theorem malformed_amount_is_zero (mv : MetricValue) (s : string) :
  Amount mv = Some s →
  (ParseFloat s).2 = Some ErrSyntax →
  getAwsMetricAmount mv = Some 0%float
  ∧ (∀ (g : Group) (name : string),
       Metrics g = {[ name := mv ]} → groupAmount g = Some 0%float)
  ∧ (∀ (before after : list ResultByTime) (vb va : list (string * float))
       (result : ResultByTime) (date name : string) (sc : float),
       Forall2 readsPeriod before vb → Forall2 readsPeriod after va →
       TimePeriod result = Some {| Start := Some date |} →
       Total result = {[ name := mv ]} →
       supCostOf (before ++ result :: after) = Some sc →
       aggregationForAWS (before ++ result :: after)
       = Some (omap (pointOf sc (length (before ++ result :: after)))
                 (vb ++ (date, 0%float) :: va), None)).
Proof.
  intros Hamount Hsyntax.
  assert (Hzero : getAwsMetricAmount mv = Some 0%float).
  { unfold getAwsMetricAmount. rewrite Hamount. simpl.
    rewrite (ParseFloat_syntax _ Hsyntax).
    destruct (GetBool "cost.round"); [by rewrite Round_zero | done]. }
  split_and!; [done | |].
  - intros g name Hmetrics. by rewrite (groupAmount_single _ _ _ Hmetrics).
  - intros before after vb va result date name sc Hb Ha Hdate Htotal Hsc.
    apply aggregationForAWS_reads; [|done].
    apply Forall2_app; [done|]. constructor; [|done].
    split; [done|]. by exists name, mv.
Qed.

End DateSeries.

Lemma date_series_points_witness :
  @aggregationForAWS (Runtime.ordered false true "BUSINESS")
    [period "2021-01-01" "5000"; period "2021-01-02" "-600";
     period "2021-01-03" "n/a"]
  = Some ([ {| Date := "2021-01-01"; DAmount := 5146.666666666667 |};
            {| Date := "2021-01-03"; DAmount := 146.66666666666666 |} ],
          None).
Proof.
  refine (proj1 (@date_series_points (Runtime.ordered false true "BUSINESS")
                   [period "2021-01-01" "5000"; period "2021-01-02" "-600";
                    period "2021-01-03" "n/a"]
                   [("2021-01-01", 5000%float); ("2021-01-02", (-600)%float);
                    ("2021-01-03", 0%float)]
                   440%float _ _)).
  - repeat (apply List.Forall2_cons
              || apply List.Forall2_nil);
      (split; [reflexivity|]; eexists MetricNetAmortizedCost, (metric _);
       split; [reflexivity | vm_compute; reflexivity]).
  - vm_compute; reflexivity.
Defined.

(** ** The key indexer *)

Section KeyIndex.

Lemma foldlM_bind {A B C : Type} (f : B → C → option B) (g : A → list C)
    (b : B) (l : list A) :
  foldlM (λ b a, foldlM f b (g a)) b l = foldlM f b (l ≫= g).
Proof.
  revert b. induction l as [|a l IH]; intros b; simpl; [done|].
  rewrite foldlM_app. destruct (foldlM f b (g a)); simpl; [apply IH | done].
Qed.

Lemma seeKey_NoDup (seen : list string) (k : string) :
  NoDup seen → NoDup (seeKey seen k).
Proof.
  intros Hnd. unfold seeKey. case_decide; [done|].
  apply NoDup_app. split_and!; [done | | apply NoDup_singleton].
  intros x Hx ->%list_elem_of_singleton. done.
Qed.

Lemma seeKey_elem (seen : list string) (k x : string) :
  x ∈ seeKey seen k ↔ x ∈ seen ∨ x = k.
Proof.
  unfold seeKey. case_decide.
  - split; [by left | intros [?| ->]; done].
  - rewrite elem_of_app, list_elem_of_singleton. done.
Qed.

Lemma foldl_seeKey_NoDup (l seen : list string) :
  NoDup seen → NoDup (foldl seeKey seen l).
Proof.
  revert seen. induction l as [|k l IH]; intros seen Hnd; simpl; [done|].
  by apply IH, seeKey_NoDup.
Qed.

Lemma foldl_seeKey_elem (l seen : list string) (x : string) :
  x ∈ foldl seeKey seen l ↔ x ∈ seen ∨ x ∈ l.
Proof.
  revert seen. induction l as [|k l IH]; intros seen; simpl.
  - rewrite elem_of_nil. tauto.
  - rewrite IH, seeKey_elem, elem_of_cons. intuition (subst; auto).
Qed.

(** What is seen stays where it is. *)
Lemma foldl_seeKey_prefix (l seen : list string) :
  ∃ more, foldl seeKey seen l = seen ++ more.
Proof.
  revert seen. induction l as [|k l IH]; intros seen; simpl.
  - exists []. by rewrite app_nil_r.
  - destruct (IH (seeKey seen k)) as [more ->]. unfold seeKey.
    case_decide; [by exists more|].
    exists (k :: more). by rewrite <- app_assoc.
Qed.

Lemma firstSeen_NoDup (l : list string) : NoDup (firstSeen l).
Proof. apply foldl_seeKey_NoDup, NoDup_nil_2. Qed.

Lemma firstSeen_elem (l : list string) (x : string) :
  x ∈ firstSeen l ↔ x ∈ l.
Proof.
  unfold firstSeen. rewrite foldl_seeKey_elem, elem_of_nil. tauto.
Qed.

(** The position of a key is the number of distinct keys before its
    first occurrence. *)
Lemma firstSeen_position (l1 l2 : list string) (k : string) :
  k ∉ l1 → firstSeen (l1 ++ k :: l2) !! length (firstSeen l1) = Some k.
Proof.
  intros Hfresh. unfold firstSeen. rewrite foldl_app. simpl.
  fold (firstSeen l1). unfold seeKey at 2.
  rewrite decide_False by by rewrite firstSeen_elem.
  destruct (foldl_seeKey_prefix l2 (firstSeen l1 ++ [k])) as [more ->].
  rewrite <- app_assoc. simpl. by rewrite list_lookup_middle.
Qed.

Lemma indexes_empty : indexes ∅ [].
Proof.
  split; [|done]. intros k i. by rewrite lookup_empty, lookup_nil.
Qed.

Lemma indexes_unique (keys keys' : gmap string nat) (seen : list string) :
  indexes keys seen → indexes keys' seen → keys = keys'.
Proof.
  intros [H1 _] [H2 _]. apply map_eq. intros k. apply option_eq. intros i.
  by rewrite H1, H2.
Qed.

Lemma keyIndexStep_indexes (keys : gmap string nat) (seen : list string)
    (g : Group) (k : string) :
  indexes keys seen → Keys g !! 0 = Some k →
  ∃ keys', keyIndexStep keys g = Some keys' ∧ indexes keys' (seeKey seen k).
Proof.
  intros [Hlookup Hsize] Hk. unfold keyIndexStep, seeKey. rewrite Hk. simpl.
  destruct (keys !! k) as [i|] eqn:Hget.
  - exists keys. split; [done|].
    rewrite decide_True; [done|].
    apply Hlookup in Hget. by eapply list_elem_of_lookup_2.
  - assert (Hfresh : k ∉ seen).
    { intros [i Hi]%list_elem_of_lookup. apply Hlookup in Hi. congruence. }
    rewrite decide_False by done.
    exists (<[k := size keys]> keys). split; [done|]. split.
    + intros k' i. rewrite lookup_snoc_Some, lookup_insert_Some, Hsize.
      split.
      * intros [[<- <-]|[Hne Hi]]; [by right|].
        left. apply Hlookup in Hi. split; [|done]. by eapply lookup_lt_Some.
      * intros [[Hlt Hi]|[-> <-]]; [|by left].
        right. split; [|by apply Hlookup].
        intros <-. apply Hfresh. by eapply list_elem_of_lookup_2.
    + rewrite map_size_insert_None by done. rewrite length_app. simpl. lia.
Qed.

Lemma keyIndexLoop_indexes (groups : list Group) (ks : list string)
    (keys : gmap string nat) (seen : list string) :
  Forall2 (λ g k, Keys g !! 0 = Some k) groups ks →
  indexes keys seen →
  ∃ keys', foldlM keyIndexStep keys groups = Some keys'
           ∧ indexes keys' (foldl seeKey seen ks).
Proof.
  intros Hreads. revert keys seen.
  induction Hreads as [|g k groups ks Hk _ IH]; intros keys seen Hinv; simpl.
  - by exists keys.
  - destruct (keyIndexStep_indexes _ _ _ _ Hinv Hk) as (keys1 & -> & Hinv1).
    simpl. by apply IH.
Qed.

Lemma getGroupedAwsKeyIndex_indexes (results : list ResultByTime)
    (ks : list string) :
  readsKeys results ks →
  ∃ keys, getGroupedAwsKeyIndex results = Some keys
          ∧ indexes keys (firstSeen ks).
Proof.
  intros Hreads. unfold getGroupedAwsKeyIndex. rewrite foldlM_bind.
  by eapply keyIndexLoop_indexes; [|apply indexes_empty].
Qed.

(** C5: the key indexer gives every distinct first-level key a slot, the
    slots are [0], [1], ... in the order the keys are first seen in the
    scan of periods then groups (the slot of a key is the number of
    distinct keys before its first occurrence), there are as many slots as
    distinct keys, and the mapping is a function of the sequence of keys
    alone. *)
Theorem key_index_first_seen (results : list ResultByTime) (ks : list string) :
  readsKeys results ks →
  ∃ keys, getGroupedAwsKeyIndex results = Some keys
    ∧ (∀ k i, keys !! k = Some i ↔ firstSeen ks !! i = Some k)
    ∧ (∀ k, is_Some (keys !! k) ↔ k ∈ ks)
    ∧ (∀ l1 k l2, ks = l1 ++ k :: l2 → k ∉ l1 →
         keys !! k = Some (length (firstSeen l1)))
    ∧ size keys = length (firstSeen ks)
    ∧ NoDup (firstSeen ks)
    ∧ (∀ k, k ∈ firstSeen ks ↔ k ∈ ks)
    ∧ (∀ results', readsKeys results' ks →
         getGroupedAwsKeyIndex results' = Some keys).
Proof.
  intros Hreads.
  destruct (getGroupedAwsKeyIndex_indexes _ _ Hreads) as (keys & Hrun & Hinv).
  exists keys. pose proof Hinv as [Hlookup Hsize].
  split_and!; [done | done | | | done | apply firstSeen_NoDup
               | apply firstSeen_elem | ].
  - intros k. rewrite <- firstSeen_elem, list_elem_of_lookup.
    unfold is_Some. by setoid_rewrite Hlookup.
  - intros l1 k l2 -> Hfresh. apply Hlookup. by apply firstSeen_position.
  - intros results' Hreads'.
    destruct (getGroupedAwsKeyIndex_indexes _ _ Hreads') as (keys' & -> & Hinv').
    f_equal. by eapply indexes_unique.
Qed.

End KeyIndex.

Lemma key_index_first_seen_witness :
  ∃ keys,
    getGroupedAwsKeyIndex
      [groupedPeriod "2021-01-01" [group "EC2" "10"; group "S3" "3"];
       groupedPeriod "2021-01-02" [group "EC2" "-5"; group "RDS" "1"]]
    = Some keys
    ∧ keys !! "EC2" = Some 0 ∧ keys !! "S3" = Some 1 ∧ keys !! "RDS" = Some 2
    ∧ size keys = 3.
Proof.
  destruct (key_index_first_seen
              [groupedPeriod "2021-01-01" [group "EC2" "10"; group "S3" "3"];
               groupedPeriod "2021-01-02" [group "EC2" "-5"; group "RDS" "1"]]
              ["EC2"; "S3"; "EC2"; "RDS"])
    as (keys & Hrun & Hlookup & _ & _ & Hsize & _).
  { repeat (apply List.Forall2_cons || apply List.Forall2_nil); reflexivity. }
  exists keys. split; [exact Hrun|].
  split; [|split; [|split]]; [apply Hlookup; reflexivity .. | exact Hsize].
Defined.

(** ** Slices indexed by slot *)

Section Slots.
Context `{env : GoEnv}.

Lemma store_Some {A : Type} (l : list A) (i : nat) (x : A) :
  i < length l → store l i x = Some (<[i := x]> l).
Proof. intros Hlt. unfold store. by rewrite decide_True. Qed.

Lemma indexes_NoDup (keys : gmap string nat) (ks : list string) :
  indexes keys ks → NoDup ks.
Proof.
  intros [Hlookup _]. apply NoDup_alt. intros i j k Hi Hj.
  apply Hlookup in Hi, Hj. congruence.
Qed.

Lemma indexes_lt (keys : gmap string nat) (ks : list string) (k : string)
    (i : nat) :
  indexes keys ks → keys !! k = Some i → i < length ks.
Proof. intros [Hlookup _] Hi. apply Hlookup in Hi. by eapply lookup_lt_Some. Qed.

Lemma elem_of_range_map {A : Type} (m : gmap string A) (k : string) (x : A) :
  (k, x) ∈ range_map m ↔ m !! k = Some x.
Proof. by rewrite range_map_perm, elem_of_map_to_list. Qed.

Lemma elem_of_slots (ks : list string) (k : string) (i : nat) :
  (k, i) ∈ slots ks ↔ ks !! i = Some k.
Proof.
  unfold slots. rewrite elem_of_lookup_imap. split.
  - intros (j & k' & [= -> ->] & Hk). done.
  - intros Hk. by exists i, k.
Qed.

Lemma slots_fst (ks : list string) : (slots ks).*1 = ks.
Proof.
  apply list_eq. intros i. unfold slots.
  rewrite list_lookup_fmap, list_lookup_imap. by destruct (ks !! i).
Qed.

(** A [range] over the index visits every key with its slot, once. *)
Lemma range_map_slots (keys : gmap string nat) (ks : list string) :
  indexes keys ks → range_map keys ≡ₚ slots ks.
Proof.
  intros Hinv. apply NoDup_Permutation.
  - rewrite range_map_perm. apply NoDup_map_to_list.
  - apply (NoDup_fmap_1 fst). rewrite slots_fst. by eapply indexes_NoDup.
  - intros [k i]. rewrite elem_of_range_map, elem_of_slots. apply Hinv.
Qed.

Lemma range_map_keys (keys : gmap string nat) (ks : list string) :
  indexes keys ks → (range_map keys).*1 ≡ₚ ks.
Proof.
  intros Hinv. rewrite (range_map_slots _ _ Hinv). by rewrite slots_fst.
Qed.

Lemma range_map_NoDup_snd (keys : gmap string nat) (ks : list string) :
  indexes keys ks → NoDup (range_map keys).*2.
Proof.
  intros Hinv. apply NoDup_fmap_2_strong.
  - intros [k i] [k' i'] Hin Hin' Heq. simpl in Heq. subst i'.
    apply elem_of_range_map, Hinv in Hin, Hin'. congruence.
  - rewrite range_map_perm. apply NoDup_map_to_list.
Qed.

(** The loop that fills the slice: every slot named by an entry holds the
    value made from the key of that entry. *)
Lemma storeLoop {A : Type} (mk : string → A)
    (step : list (option A) → string * nat → option (list (option A)))
    (es : list (string * nat)) (costs : list (option A)) :
  (∀ c e, step c e = store c e.2 (Some (mk e.1))) →
  NoDup es.*2 →
  (∀ e, e ∈ es → e.2 < length costs) →
  ∃ costs', foldlM step costs es = Some costs'
    ∧ length costs' = length costs
    ∧ (∀ k j, (k, j) ∈ es → costs' !! j = Some (Some (mk k)))
    ∧ (∀ j, j ∉ es.*2 → costs' !! j = costs !! j).
Proof.
  intros Hstep. revert costs.
  induction es as [|[k i] es IH]; intros costs Hnd Hlt; simpl.
  - exists costs. split_and!; [done | done | | done].
    intros k j Hin. by apply elem_of_nil in Hin.
  - apply NoDup_cons in Hnd as [Hi Hnd].
    assert (Hi_lt : i < length costs)
      by (apply (Hlt (k, i)), elem_of_cons; auto).
    rewrite Hstep. simpl. rewrite store_Some by done. simpl.
    destruct (IH (<[i := Some (mk k)]> costs) Hnd)
      as (costs' & Hrun & Hlen & Hin & Hout).
    { intros e He. rewrite length_insert. apply Hlt, elem_of_cons. auto. }
    exists costs'. rewrite length_insert in Hlen.
    split_and!; [done | done | |].
    + intros k' j [[= -> ->]|Hk']%elem_of_cons; [|by apply Hin].
      rewrite Hout by done. by apply list_lookup_insert_eq.
    + intros j [Hne Hj]%not_elem_of_cons. rewrite Hout by done.
      by apply list_lookup_insert_ne.
Qed.

Lemma initLoop {A : Type} (mk : string → A)
    (step : list (option A) → string * nat → option (list (option A)))
    (keys : gmap string nat) (ks : list string) :
  (∀ c e, step c e = store c e.2 (Some (mk e.1))) →
  indexes keys ks →
  foldlM step (replicate (size keys) None) (range_map keys)
  = Some ((λ k, Some (mk k)) <$> ks).
Proof.
  intros Hstep Hinv.
  destruct (storeLoop mk step (range_map keys) (replicate (size keys) None)
              Hstep (range_map_NoDup_snd _ _ Hinv))
    as (costs' & -> & Hlen & Hin & _).
  { intros [k i] He. rewrite length_replicate. destruct Hinv as [Hlookup ->].
    apply elem_of_range_map, Hlookup in He. by eapply lookup_lt_Some. }
  f_equal. rewrite length_replicate in Hlen. destruct Hinv as [Hlookup Hsize].
  apply list_eq. intros j. rewrite list_lookup_fmap.
  destruct (ks !! j) as [k|] eqn:Hk; simpl.
  - apply Hin, elem_of_range_map, Hlookup, Hk.
  - apply lookup_ge_None. apply lookup_ge_None in Hk. lia.
Qed.

(** Writing the slot of [k] changes what the slice holds for [k] only. *)
Lemma updateSlot {A : Type} (F F' : string → A) (ks : list string)
    (i : nat) (k : string) :
  NoDup ks → ks !! i = Some k →
  (∀ k', k' ≠ k → F' k' = F k') →
  <[i := F' k]> (F <$> ks) = F' <$> ks.
Proof.
  intros Hnd Hk Hother. apply list_eq. intros j.
  destruct (decide (j = i)) as [->|Hne].
  - rewrite list_lookup_insert_eq by
      (rewrite length_fmap; by eapply lookup_lt_Some).
    by rewrite list_lookup_fmap, Hk.
  - rewrite list_lookup_insert_ne by done. rewrite !list_lookup_fmap.
    destruct (ks !! j) as [k'|] eqn:Hk'; simpl; [|done].
    rewrite Hother; [done|]. intros ->. apply Hne.
    by eapply NoDup_lookup.
Qed.

(** A loop that appends what it selects. *)
Lemma foldlM_collect {A B : Type} (step : list B → A → option (list B))
    (sel : A → option B) (l : list A) (acc : list B) :
  (∀ acc e, e ∈ l → step acc e = Some (acc ++ option_list (sel e))) →
  foldlM step acc l = Some (acc ++ omap sel l).
Proof.
  revert acc. induction l as [|e l IH]; intros acc Hstep; simpl.
  - by rewrite app_nil_r.
  - rewrite Hstep by (apply elem_of_cons; auto). simpl.
    rewrite IH by (intros; apply Hstep, elem_of_cons; auto).
    destruct (sel e); simpl; by rewrite <- ?app_assoc.
Qed.

Lemma foldlM_pairs {A B C : Type} (f : A → B → C → option B) (g : A → list C)
    (b : B) (l : list A) :
  foldlM (λ b a, foldlM (f a) b (g a)) b l
  = foldlM (λ b p, f p.1 b p.2) b (a ← l; pair a <$> g a).
Proof.
  revert b. induction l as [|a l IH]; intros b; simpl; [done|].
  rewrite foldlM_app.
  assert (Hinner : ∀ b cs, foldlM (λ b p, f p.1 b p.2) b (pair a <$> cs)
                           = foldlM (f a) b cs).
  { clear. intros b cs. revert b. induction cs as [|c cs IH]; intros b; simpl;
      [done|]. destruct (f a b c); simpl; [apply IH | done]. }
  rewrite Hinner. destruct (foldlM (f a) b (g a)); simpl; [apply IH | done].
Qed.

Lemma omap_fst_Permutation {A B : Type} (f : string → option B)
    (l : list (string * A)) (ks : list string) :
  l.*1 ≡ₚ ks → omap (λ e, f e.1) l ≡ₚ omap f ks.
Proof.
  intros Hperm. rewrite <- Hperm. clear.
  induction l as [|e l IH]; simpl; [done|].
  destruct (f e.1); simpl; by rewrite IH.
Qed.

End Slots.

(** ** The grouped series *)

Section GroupedSeries.
Context `{env : GoEnv}.

Lemma readsGroup_keys (groups : list Group) (gv : list (string * float)) :
  Forall2 readsGroup groups gv →
  Forall2 (λ g k, Keys g !! 0 = Some k) groups gv.*1.
Proof.
  induction 1 as [|g v groups gv [Hk _] _ IH]; simpl; constructor; done.
Qed.

Lemma readsGrouped_keys (results : list ResultByTime)
    (views : list (string * list (string * float))) :
  Forall2 readsGrouped results views → readsKeys results (keysOf views).
Proof.
  unfold readsKeys, keysOf, entriesOf.
  induction 1 as [|r v results views [_ Hgroups] _ IH]; simpl; [constructor|].
  rewrite fmap_app. apply Forall2_app; [|done].
  rewrite <- list_fmap_compose. by apply readsGroup_keys.
Qed.

Lemma readsGrouped_pairs (results : list ResultByTime)
    (views : list (string * list (string * float))) :
  Forall2 readsGrouped results views →
  Forall2 readsPair (r ← results; pair r <$> Groups r) (entriesOf views).
Proof.
  unfold entriesOf.
  induction 1 as [|r v results views [Hdate Hgroups] _ IH]; simpl;
    [constructor|].
  apply Forall2_app; [|done].
  apply Forall2_fmap. eapply Forall2_impl; [exact Hgroups|].
  intros g gv Hg. by split.
Qed.

Lemma seriesOf_snoc (k : string) (es : list (string * (string * float)))
    (e : string * (string * float)) :
  seriesOf k (es ++ [e]) = seriesOf k es ++ option_list (pointFor k e).
Proof.
  unfold seriesOf. rewrite omap_app. simpl.
  by destruct (pointFor k e).
Qed.

Lemma productGroupStep_entry (keys : gmap string nat) (ks : list string)
    (es : list (string * (string * float))) (p : ResultByTime * Group)
    (e : string * (string * float)) :
  indexes keys ks → e.2.1 ∈ ks → readsPair p e →
  productGroupStep keys p.1 (productsOf ks es) p.2
  = Some (productsOf ks (es ++ [e])).
Proof.
  intros Hinv [i Hi]%list_elem_of_lookup (Hdate & Hkey & Hamount).
  pose proof (indexes_NoDup _ _ Hinv) as Hnd.
  assert (Hslot : keys !! e.2.1 = Some i) by by apply Hinv.
  unfold productGroupStep. rewrite Hkey. simpl. rewrite Hslot. simpl.
  assert (Hcost : productsOf ks es !! i
            = Some (Some {| PId := e.2.1; PAggregation := seriesOf e.2.1 es |})).
  { unfold productsOf. by rewrite list_lookup_fmap, Hi. }
  rewrite Hcost. simpl.
  rewrite Hdate. simpl. rewrite Hamount. simpl.
  assert (Hlt : i < length (productsOf ks es)).
  { unfold productsOf. rewrite length_fmap. by eapply lookup_lt_Some. }
  assert (Hother : ∀ k', k' ≠ e.2.1 →
            Some {| PId := k'; PAggregation := seriesOf k' (es ++ [e]) |}
            = Some {| PId := k'; PAggregation := seriesOf k' es |}).
  { intros k' Hne. rewrite seriesOf_snoc. unfold pointFor.
    rewrite decide_False by done. simpl. by rewrite app_nil_r. }
  destruct (0 <? e.2.2)%float eqn:Hpos; simpl; rewrite store_Some by done;
    f_equal; unfold productsOf.
  - rewrite <- (updateSlot _ _ ks i e.2.1 Hnd Hi Hother).
    f_equal. rewrite seriesOf_snoc. unfold pointFor.
    rewrite decide_True by done. by rewrite Hpos.
  - rewrite <- (updateSlot _ _ ks i e.2.1 Hnd Hi Hother).
    f_equal. rewrite seriesOf_snoc. unfold pointFor.
    rewrite decide_True by done. rewrite Hpos. simpl. by rewrite app_nil_r.
Qed.

Lemma productGroupLoop_entries (keys : gmap string nat) (ks : list string)
    (pairs : list (ResultByTime * Group))
    (es done : list (string * (string * float))) :
  indexes keys ks → Forall (λ e, e.2.1 ∈ ks) es → Forall2 readsPair pairs es →
  foldlM (λ costs p, productGroupStep keys p.1 costs p.2)
    (productsOf ks done) pairs
  = Some (productsOf ks (done ++ es)).
Proof.
  intros Hinv Hks Hreads. revert done Hks.
  induction Hreads as [|p e pairs es Hhead _ IH]; intros done Hks; simpl.
  - by rewrite app_nil_r.
  - apply Forall_cons in Hks as [Hk Hks].
    rewrite (productGroupStep_entry _ _ _ _ _ Hinv Hk Hhead). simpl.
    rewrite IH by done. by rewrite <- app_assoc.
Qed.

Lemma productFilterLoop (keys : gmap string nat) (ks : list string)
    (es : list (string * (string * float))) :
  indexes keys ks →
  foldlM (productFilterStep (productsOf ks es)) [] (range_map keys)
  = Some (omap (λ e, productOf es e.1) (range_map keys)).
Proof.
  intros Hinv.
  rewrite (foldlM_collect _ (λ e, productOf es e.1)); [done|].
  intros acc [k i] Hin. apply elem_of_range_map, Hinv in Hin.
  unfold productFilterStep, productsOf, productOf. simpl.
  rewrite list_lookup_fmap, Hin. simpl.
  case_decide; simpl; [done | by rewrite app_nil_r].
Qed.

(** The run of [getGroupedAwsProducts] on periods it can read. *)
Lemma getGroupedAwsProducts_reads (results : list ResultByTime)
    (views : list (string * list (string * float))) :
  Forall2 readsGrouped results views →
  ∃ keys, getGroupedAwsKeyIndex results = Some keys
    ∧ indexes keys (firstSeen (keysOf views))
    ∧ getGroupedAwsProducts results
      = Some (omap (λ e, productOf (entriesOf views) e.1) (range_map keys),
              None).
Proof.
  intros Hreads.
  destruct (getGroupedAwsKeyIndex_indexes _ _ (readsGrouped_keys _ _ Hreads))
    as (keys & Hrun & Hinv).
  exists keys. split_and!; [done | done |].
  unfold getGroupedAwsProducts. rewrite Hrun. simpl.
  rewrite (initLoop (λ k, {| PId := k; PAggregation := [] |})
             initProductStep _ _ (λ _ _, eq_refl) Hinv). simpl.
  rewrite (foldlM_pairs (λ r costs g, productGroupStep keys r costs g)).
  rewrite (productGroupLoop_entries keys _ _ (entriesOf views) [] Hinv).
  - simpl. by rewrite (productFilterLoop _ _ _ Hinv).
  - apply Forall_forall. intros e He. apply firstSeen_elem.
    unfold keysOf. apply list_elem_of_fmap. by exists e.
  - by apply readsGrouped_pairs.
Qed.

(** C6, as the code computes it: the grouped series holds one product
    cost for every discovered key whose series is not empty, and no
    other; the series of a key holds, in the order of the scan, one point
    with the date of the period for each of its entries whose amount is
    strictly positive.  The product costs come in the order in which the
    last loop ranges over the key index, which is a rearrangement of the
    first-seen order. *)
Theorem grouped_series_per_key (results : list ResultByTime)
    (views : list (string * list (string * float))) :
  Forall2 readsGrouped results views →
  ∃ keys out, getGroupedAwsKeyIndex results = Some keys
    ∧ getGroupedAwsProducts results = Some (out, None)
    ∧ out = omap (λ e, productOf (entriesOf views) e.1) (range_map keys)
    ∧ out ≡ₚ omap (productOf (entriesOf views)) (firstSeen (keysOf views))
    ∧ (∀ p, p ∈ out →
         PAggregation p = seriesOf (PId p) (entriesOf views)
         ∧ PAggregation p ≠ []
         ∧ PId p ∈ keysOf views).
Proof.
  intros Hreads.
  destruct (getGroupedAwsProducts_reads _ _ Hreads) as (keys & Hkeys & Hinv & Hrun).
  eexists keys, _. split_and!; [done | done | done | |].
  - by apply omap_fst_Permutation, range_map_keys.
  - intros p ([k i] & Hin & Hp)%list_elem_of_omap.
    apply elem_of_range_map, Hinv, list_elem_of_lookup_2 in Hin.
    rewrite firstSeen_elem in Hin.
    unfold productOf in Hp. simpl in Hp. case_decide as Hlen; [|done].
    injection Hp as <-. simpl. split_and!; [done | | done].
    intros Hnil. rewrite Hnil in Hlen. simpl in Hlen. lia.
Qed.

End GroupedSeries.

(** ** The two-period entities *)

Section Entities.
Context `{env : GoEnv}.

Lemma bucketTotal_snoc (amounts : list float) (a : float) :
  bucketTotal (amounts ++ [a]) = (bucketTotal amounts + a)%float.
Proof. unfold bucketTotal. by rewrite foldl_app. Qed.

Lemma sideTotal_snoc (mid : nat) (after : bool) (k : string)
    (es : list (nat * (string * float))) (e : nat * (string * float)) :
  sideTotal mid after k (es ++ [e])
  = match sideAmount mid after k e with
    | Some a => (sideTotal mid after k es + a)%float
    | None => sideTotal mid after k es
    end.
Proof.
  unfold sideTotal. rewrite omap_app. simpl.
  destruct (sideAmount mid after k e); simpl.
  - apply bucketTotal_snoc.
  - by rewrite app_nil_r.
Qed.

Lemma sideTotal_other (mid : nat) (after : bool) (k : string)
    (es : list (nat * (string * float))) (e : nat * (string * float)) :
  k ≠ e.2.1 → sideTotal mid after k (es ++ [e]) = sideTotal mid after k es.
Proof.
  intros Hne. rewrite sideTotal_snoc. unfold sideAmount.
  by rewrite decide_False.
Qed.

Lemma entityGroupStep_entry (keys : gmap string nat) (ks : list string)
    (mid : nat) (es : list (nat * (string * float))) (g : Group)
    (e : nat * (string * float)) :
  indexes keys ks → e.2.1 ∈ ks → readsGroup g e.2 →
  entityGroupStep keys mid e.1 (entitiesOf mid ks es) g
  = Some (entitiesOf mid ks (es ++ [e])).
Proof.
  intros Hinv [i Hi]%list_elem_of_lookup (Hkey & Hamount).
  pose proof (indexes_NoDup _ _ Hinv) as Hnd.
  assert (Hslot : keys !! e.2.1 = Some i) by by apply Hinv.
  unfold entityGroupStep. rewrite Hamount. simpl. rewrite Hkey. simpl.
  rewrite Hslot. simpl.
  assert (Hcost : entitiesOf mid ks es !! i
            = Some (Some {| EId := e.2.1;
                            EAggregation := [sideTotal mid false e.2.1 es;
                                             sideTotal mid true e.2.1 es];
                            EChange := zeroChange |})).
  { unfold entitiesOf. by rewrite list_lookup_fmap, Hi. }
  assert (Hlt : i < length (entitiesOf mid ks es)).
  { unfold entitiesOf. rewrite length_fmap. by eapply lookup_lt_Some. }
  assert (Hother : ∀ k', k' ≠ e.2.1 →
            Some {| EId := k';
                    EAggregation := [sideTotal mid false k' (es ++ [e]);
                                     sideTotal mid true k' (es ++ [e])];
                    EChange := zeroChange |}
            = Some {| EId := k';
                      EAggregation := [sideTotal mid false k' es;
                                       sideTotal mid true k' es];
                      EChange := zeroChange |}).
  { intros k' Hne. by rewrite !sideTotal_other. }
  unfold addToBucket. case_decide as Hside; rewrite Hcost; simpl;
    rewrite store_Some by done; f_equal; unfold entitiesOf;
    rewrite <- (updateSlot _ _ ks i e.2.1 Hnd Hi Hother);
    rewrite !sideTotal_snoc; unfold sideAmount.
  - rewrite (bool_decide_eq_true_2 _ Hside). repeat case_decide; done.
  - rewrite (bool_decide_eq_false_2 _ Hside). repeat case_decide; done.
Qed.

Lemma readsEntity_pairs (results : list ResultByTime)
    (gviews : list (list (string * float))) (j : nat) :
  readsEntity results gviews →
  Forall2 readsIndexedPair
    (ir ← zip (seq j (length results)) results; pair ir <$> Groups ir.2)
    (entriesOf (zip (seq j (length gviews)) gviews)).
Proof.
  unfold entriesOf. intros Hreads. revert j.
  induction Hreads as [|r gv results gviews Hgroups _ IH]; intros j; simpl;
    [constructor|].
  apply Forall2_app; [|apply IH].
  apply Forall2_fmap. eapply Forall2_impl; [exact Hgroups|].
  intros g v Hg. by split.
Qed.

Lemma entityGroupLoop_entries (keys : gmap string nat) (ks : list string)
    (mid : nat) (pairs : list ((nat * ResultByTime) * Group))
    (es done : list (nat * (string * float))) :
  indexes keys ks → Forall (λ e, e.2.1 ∈ ks) es →
  Forall2 readsIndexedPair pairs es →
  foldlM (λ costs p, entityGroupStep keys mid p.1.1 costs p.2)
    (entitiesOf mid ks done) pairs
  = Some (entitiesOf mid ks (done ++ es)).
Proof.
  intros Hinv Hks Hreads. revert done Hks.
  induction Hreads as [|p e pairs es [Hi Hg] _ IH]; intros done Hks; simpl.
  - by rewrite app_nil_r.
  - apply Forall_cons in Hks as [Hk Hks]. rewrite Hi.
    rewrite (entityGroupStep_entry _ _ _ _ _ _ Hinv Hk Hg). simpl.
    rewrite IH by done. by rewrite <- app_assoc.
Qed.

End Entities.

Section EntitySplit.
Context `{env : GoEnv}.

Lemma sideAmount_period (mid j : nat) (after : bool) (k : string)
    (gv : list (string * float)) :
  omap (sideAmount mid after k) (pair j <$> gv)
  = if decide (bool_decide (mid ≤ j) = after) then omap (amountOf k) gv
    else [].
Proof.
  induction gv as [|v gv IH]; csimpl; [by case_decide|].
  rewrite IH. unfold sideAmount, amountOf. simpl.
  repeat case_decide; done.
Qed.

(** The entries before [mid] are those of the first [mid] periods, the
    entries from [mid] on those of the other periods. *)
Lemma sideAmounts_split (mid : nat) (k : string)
    (gviews : list (list (string * float))) (j : nat) :
  omap (sideAmount mid false k) (entriesOf (zip (seq j (length gviews)) gviews))
  = amountsOf k (take (mid - j) gviews)
  ∧ omap (sideAmount mid true k)
      (entriesOf (zip (seq j (length gviews)) gviews))
    = amountsOf k (drop (mid - j) gviews).
Proof.
  unfold entriesOf, amountsOf. revert j.
  induction gviews as [|gv gviews IH]; intros j; csimpl.
  - by rewrite take_nil, drop_nil.
  - rewrite !omap_app, !sideAmount_period.
    destruct (IH (S j)) as [IHbefore IHafter]. rewrite IHbefore, IHafter.
    destruct (decide (mid ≤ j)) as [Hle|Hgt].
    + rewrite (bool_decide_eq_true_2 _ Hle).
      replace (mid - j) with 0 by lia. replace (mid - S j) with 0 by lia.
      rewrite decide_False by done. rewrite decide_True by done.
      by rewrite take_0, !drop_0.
    + rewrite (bool_decide_eq_false_2 _ Hgt).
      replace (mid - j) with (S (mid - S j)) by lia.
      rewrite decide_True by done. rewrite decide_False by done.
      done.
Qed.

Lemma sideTotal_before (mid : nat) (k : string)
    (gviews : list (list (string * float))) :
  sideTotal mid false k (entriesOf (indexed gviews)) = beforeOf mid gviews k.
Proof.
  unfold sideTotal, beforeOf, indexed.
  rewrite (proj1 (sideAmounts_split mid k gviews 0)). by rewrite Nat.sub_0_r.
Qed.

Lemma sideTotal_after (mid : nat) (k : string)
    (gviews : list (list (string * float))) :
  sideTotal mid true k (entriesOf (indexed gviews)) = afterOf mid gviews k.
Proof.
  unfold sideTotal, afterOf, indexed.
  rewrite (proj2 (sideAmounts_split mid k gviews 0)). by rewrite Nat.sub_0_r.
Qed.

Lemma entityFilterLoop (keys : gmap string nat) (ks : list string)
    (mid : nat) (gviews : list (list (string * float))) :
  indexes keys ks →
  foldlM (entityFilterStep (entitiesOf mid ks (entriesOf (indexed gviews))))
    [] (range_map keys)
  = Some (omap (λ e, entityOf mid gviews e.1) (range_map keys)).
Proof.
  intros Hinv.
  rewrite (foldlM_collect _ (λ e, entityOf mid gviews e.1)); [done|].
  intros acc [k i] Hin. apply elem_of_range_map, Hinv in Hin.
  unfold entityFilterStep, entitiesOf, entityOf, bothZero. simpl.
  rewrite list_lookup_fmap, Hin. simpl.
  rewrite sideTotal_before, sideTotal_after.
  destruct (beforeOf mid gviews k =? 0)%float; simpl;
    [destruct (afterOf mid gviews k =? 0)%float; simpl|];
    by rewrite ?app_nil_r.
Qed.

Lemma readsEntity_keys_from (results : list ResultByTime)
    (gviews : list (list (string * float))) (j : nat) :
  readsEntity results gviews →
  readsKeys results (keysOf (zip (seq j (length gviews)) gviews)).
Proof.
  unfold readsKeys, keysOf, entriesOf. intros Hreads. revert j.
  induction Hreads as [|r gv results gviews Hgroups _ IH]; intros j; csimpl;
    [constructor|].
  rewrite fmap_app. apply Forall2_app; [|apply IH].
  rewrite <- list_fmap_compose. by apply readsGroup_keys.
Qed.

Lemma readsEntity_keys (results : list ResultByTime)
    (gviews : list (list (string * float))) :
  readsEntity results gviews → readsKeys results (keysOf (indexed gviews)).
Proof. apply readsEntity_keys_from. Qed.

(** The run of [getEntityAwsProducts] on periods it can read. *)
Lemma getEntityAwsProducts_reads (results : list ResultByTime)
    (gviews : list (list (string * float))) :
  readsEntity results gviews →
  ∃ keys, getGroupedAwsKeyIndex results = Some keys
    ∧ indexes keys (firstSeen (keysOf (indexed gviews)))
    ∧ getEntityAwsProducts results
      = Some (omap (λ e, entityOf (length results / 2) gviews e.1)
                (range_map keys), None).
Proof.
  intros Hreads.
  destruct (getGroupedAwsKeyIndex_indexes _ _ (readsEntity_keys _ _ Hreads))
    as (keys & Hrun & Hinv).
  exists keys. split_and!; [done | done |].
  unfold getEntityAwsProducts. rewrite Hrun. simpl.
  rewrite (initLoop (λ k, {| EId := k; EAggregation := [0%float; 0%float];
                             EChange := zeroChange |}) initEntityStep _ _
             (λ _ _, eq_refl) Hinv). simpl.
  change ((λ k, Some {| EId := k; EAggregation := [0%float; 0%float];
                        EChange := zeroChange |})
          <$> firstSeen (keysOf (indexed gviews)))
    with (entitiesOf (length results / 2)
            (firstSeen (keysOf (indexed gviews))) []).
  rewrite (foldlM_pairs
             (λ ir costs g,
                entityGroupStep keys (length results / 2) ir.1 costs g)
             (λ ir, Groups ir.2)).
  rewrite (entityGroupLoop_entries keys _ (length results / 2) _
             (entriesOf (indexed gviews)) [] Hinv).
  - simpl. by rewrite (entityFilterLoop _ _ _ _ Hinv).
  - apply Forall_forall. intros e He. apply firstSeen_elem.
    unfold keysOf. apply list_elem_of_fmap. by exists e.
  - by apply readsEntity_pairs.
Qed.

End EntitySplit.

Section EntityClaims.
Context `{env : GoEnv}.

Lemma entityOf_Some (mid : nat) (gviews : list (list (string * float)))
    (k : string) (e : Entity) :
  entityOf mid gviews k = Some e ↔
  bothZero (beforeOf mid gviews k) (afterOf mid gviews k) = false
  ∧ e = {| EId := k;
           EAggregation := [beforeOf mid gviews k; afterOf mid gviews k];
           EChange := ChangeOfEntity
                        [beforeOf mid gviews k; afterOf mid gviews k] |}.
Proof.
  unfold entityOf.
  destruct (bothZero (beforeOf mid gviews k) (afterOf mid gviews k)).
  - split; [done | by intros [? _]].
  - split; [intros Heq; split; [done | congruence] | by intros [_ ->]].
Qed.

(** C7: with [midpoint = n / 2], the periods before the midpoint feed
    bucket 0 and the periods from the midpoint on feed bucket 1 (for
    [n = 2j+1]: the first [j] periods and the other [j+1] periods), each
    group adding its amount to the bucket of its key; the output holds
    the entity of a key exactly when its two buckets are not both zero. *)
Theorem entity_two_period_split (results : list ResultByTime)
    (gviews : list (list (string * float))) :
  readsEntity results gviews →
  let mid := length results / 2 in
  ∃ keys out,
    getGroupedAwsKeyIndex results = Some keys
    ∧ getEntityAwsProducts results = Some (out, None)
    ∧ out = omap (λ e, entityOf mid gviews e.1) (range_map keys)
    ∧ out ≡ₚ omap (entityOf mid gviews) (firstSeen (keysOf (indexed gviews)))
    ∧ (∀ e, e ∈ out ↔
         ∃ k, k ∈ keysOf (indexed gviews)
           ∧ bothZero (beforeOf mid gviews k) (afterOf mid gviews k) = false
           ∧ e = {| EId := k;
                    EAggregation := [bucketTotal (amountsOf k (take mid gviews));
                                     bucketTotal (amountsOf k (drop mid gviews))];
                    EChange := ChangeOfEntity
                                 [beforeOf mid gviews k; afterOf mid gviews k] |})
    ∧ (∀ j, length results = 2 * j + 1 →
         mid = j ∧ length (take mid gviews) = j
         ∧ length (drop mid gviews) = j + 1).
Proof.
  intros Hreads mid.
  destruct (getEntityAwsProducts_reads _ _ Hreads) as (keys & Hkeys & Hinv & Hrun).
  fold mid in Hrun.
  assert (Hperm : omap (λ e, entityOf mid gviews e.1) (range_map keys)
                  ≡ₚ omap (entityOf mid gviews)
                       (firstSeen (keysOf (indexed gviews))))
    by by apply omap_fst_Permutation, range_map_keys.
  eexists keys, _. split_and!; [done | done | done | done | |].
  - intros e. rewrite Hperm, list_elem_of_omap.
    setoid_rewrite firstSeen_elem. by setoid_rewrite entityOf_Some.
  - intros j Hodd. pose proof (Forall2_length _ _ _ Hreads) as Hlen.
    assert (Hmid : mid = j).
    { unfold mid. rewrite Hodd. replace (2 * j + 1) with (1 + j * 2) by lia.
      rewrite Nat.div_add by lia. done. }
    rewrite length_take, length_drop. lia.
Qed.

(** Strictly below zero is not zero. *)
Lemma ltb_not_eqb (x y : float) :
  (x <? y)%float = true → (x =? y)%float = false.
Proof.
  rewrite FloatAxioms.ltb_spec, FloatAxioms.eqb_spec.
  unfold SpecFloat.SFltb, SpecFloat.SFeqb.
  destruct (SpecFloat.SFcompare _ _) as [[]|]; congruence.
Qed.

(** C10: the buckets of an entity add up every amount of its key,
    whatever its sign, and an entity with a bucket below zero is in the
    output with its two bucket totals as they are. *)
Theorem entity_buckets_keep_sign (results : list ResultByTime)
    (gviews : list (list (string * float))) (k : string) :
  readsEntity results gviews →
  k ∈ keysOf (indexed gviews) →
  let mid := length results / 2 in
  let before := bucketTotal (amountsOf k (take mid gviews)) in
  let after := bucketTotal (amountsOf k (drop mid gviews)) in
  (before <? 0)%float = true ∨ (after <? 0)%float = true →
  (∀ gv a, gv ∈ gviews → (k, a) ∈ gv →
     a ∈ amountsOf k (take mid gviews) ++ amountsOf k (drop mid gviews))
  ∧ ∃ out, getEntityAwsProducts results = Some (out, None)
      ∧ {| EId := k; EAggregation := [before; after];
           EChange := ChangeOfEntity [before; after] |} ∈ out.
Proof.
  intros Hreads Hk mid before after Hneg. split.
  - intros gv a Hgv Ha. unfold amountsOf. rewrite <- bind_app, take_drop.
    apply list_elem_of_bind. exists gv. split; [|done].
    apply list_elem_of_omap. exists (k, a). split; [done|].
    unfold amountOf. simpl. by rewrite decide_True.
  - destruct (getEntityAwsProducts_reads _ _ Hreads)
      as (keys & Hkeys & Hinv & Hrun).
    fold mid in Hrun. eexists. split; [exact Hrun|].
    rewrite (omap_fst_Permutation (entityOf mid gviews) _ _
               (range_map_keys _ _ Hinv)).
    apply list_elem_of_omap. exists k. split; [by apply firstSeen_elem|].
    apply entityOf_Some. split; [|done].
    unfold bothZero, beforeOf, afterOf. fold before after.
    destruct Hneg as [Hneg|Hneg]; rewrite (ltb_not_eqb _ _ Hneg);
      [done | apply andb_false_r].
Qed.

End EntityClaims.

(** ** Totality *)

Section Totality.
Context `{env : GoEnv}.

Lemma foldlM_is_Some {A B : Type} (f : B → A → option B) (l : list A) (b : B) :
  (∀ b a, a ∈ l → is_Some (f b a)) → is_Some (foldlM f b l).
Proof.
  revert b. induction l as [|a l IH]; intros b Hf; simpl; [by eexists|].
  destruct (Hf b a) as [b' ->]; [apply elem_of_cons; auto|]. simpl.
  apply IH. intros b0 a0 Ha0. apply Hf, elem_of_cons. auto.
Qed.

Lemma getAwsMetricAmount_is_Some (m : MetricValue) :
  is_Some (Amount m) → is_Some (getAwsMetricAmount m).
Proof.
  intros [s Hs]. unfold getAwsMetricAmount. rewrite Hs. simpl.
  destruct (GetBool "cost.round"); by eexists.
Qed.

Lemma groupAmount_is_Some (g : Group) :
  wfMetrics (Metrics g) → is_Some (groupAmount g).
Proof.
  intros Hwf. apply foldlM_is_Some. intros b [k m] Hin.
  apply elem_of_range_map in Hin. unfold metricStep. simpl.
  apply getAwsMetricAmount_is_Some. by eapply Hwf.
Qed.

Lemma wfGroup_reads (g : Group) : wfGroup g → ∃ v, readsGroup g v.
Proof.
  intros [Hkeys Hmetrics].
  destruct (groupAmount_is_Some _ Hmetrics) as [a Ha].
  destruct (Keys g) as [|k ks] eqn:Hk; [done|].
  exists (k, a). split; simpl; [by rewrite Hk | done].
Qed.

Lemma wfGroups_read (gs : list Group) :
  Forall wfGroup gs → ∃ gv, Forall2 readsGroup gs gv.
Proof.
  induction 1 as [|g gs Hg _ [gv IH]]; [by exists []|].
  destruct (wfGroup_reads _ Hg) as [v Hv]. exists (v :: gv). by constructor.
Qed.

Lemma wfPeriods_read (results : list ResultByTime) :
  Forall wfPeriod results → ∃ views, Forall2 readsGrouped results views.
Proof.
  induction 1 as [|r results ([date Hdate] & _ & Hgroups) _ [views IH]];
    [by exists []|].
  destruct (wfGroups_read _ Hgroups) as [gv Hgv].
  exists ((date, gv) :: views). by constructor.
Qed.

Lemma readsGrouped_entity (results : list ResultByTime)
    (views : list (string * list (string * float))) :
  Forall2 readsGrouped results views → readsEntity results views.*2.
Proof.
  unfold readsEntity.
  induction 1 as [|r v results views [_ Hgroups] _ IH]; simpl;
    by constructor.
Qed.

Lemma sum_is_Some (results : list ResultByTime) :
  Forall wfPeriod results → Forall hasNetAmortizedCost results →
  is_Some (sumDateAggregationAmounts results).
Proof.
  intros Hwf Hnac. apply foldlM_is_Some. intros sum r Hr.
  rewrite Forall_forall in Hwf, Hnac.
  destruct (Hwf r Hr) as (_ & Hmetrics & _). destruct (Hnac r Hr) as [m Hm].
  destruct (Hmetrics _ _ Hm) as [s Hs].
  unfold sumStep. rewrite Hm. simpl. rewrite Hs. simpl. by eexists.
Qed.

Lemma supportCostOfSum_is_Some (account : AwsAccount) (sum : float) :
  SupportCostThresholds account ≠ [] →
  ∃ cost, supportCostOfSum account sum = Some (cost, None).
Proof.
  intros Hne. unfold supportCostOfSum.
  destruct (SupportCostThresholds account) as [|first rest]; [done|].
  simpl. destruct (_ <? _)%float; by eexists.
Qed.

Lemma SupportCostForAWS_is_Some (account : AwsAccount)
    (results : list ResultByTime) :
  SupportCostThresholds account ≠ [] →
  Forall wfPeriod results → Forall hasNetAmortizedCost results →
  ∃ cost, SupportCostForAWS account results = Some (cost, None).
Proof.
  intros Hne Hwf Hnac. destruct (sum_is_Some _ Hwf Hnac) as [sum Hsum].
  rewrite (SupportCostForAWS_sum _ _ _ Hsum).
  by apply supportCostOfSum_is_Some.
Qed.

Lemma AwsAccounts_thresholds (t : AwsAccountType) (account : AwsAccount) :
  AwsAccounts !! t = Some account → SupportCostThresholds account ≠ [].
Proof.
  unfold AwsAccounts. rewrite !lookup_insert_Some, lookup_empty.
  intros [[_ <-]|[_ [[_ <-]|[_ [[_ <-]|[_ ?]]]]]]; done.
Qed.

Lemma supCostOf_is_Some (results : list ResultByTime) :
  Forall wfPeriod results → wfConfig results → is_Some (supCostOf results).
Proof.
  intros Hwf Hcfg. unfold supCostOf.
  destruct (GetBool "support.cost") eqn:Hon; [|by eexists].
  destruct (Hcfg Hon) as [[account Haccount] Hnac].
  unfold AwsAccountType in *. cbv zeta. rewrite Haccount. simpl.
  destruct (SupportCostForAWS_is_Some account results) as [cost ->];
    [by eapply AwsAccounts_thresholds | done | done |].
  by eexists.
Qed.

Lemma dateSeries_is_Some (s : float) (results : list ResultByTime) :
  Forall wfPeriod results → is_Some (dateSeries s results).
Proof.
  intros Hwf. apply foldlM_is_Some. intros ret r Hr.
  rewrite Forall_forall in Hwf.
  destruct (Hwf r Hr) as ([date Hdate] & Hmetrics & _).
  unfold dateStep. rewrite Hdate. simpl.
  destruct (foldlM_is_Some (totalStep s (length results))
              (range_map (Total r)) 0%float) as [amount ->].
  { intros b [k m] Hin. apply elem_of_range_map in Hin.
    unfold totalStep. simpl.
    destruct (getAwsMetricAmount_is_Some m) as [a ->]; [by eapply Hmetrics|].
    by eexists. }
  simpl. destruct (0 <? amount)%float; by eexists.
Qed.

(** C8, as the code has it: every aggregation returns a result and no
    error on periods it can read (a start date in every period, an amount
    in every metric, a first key in every group), provided that the
    surcharge is given a profile with at least one bracket and periods
    that hold the net amortized cost, and provided that the date series,
    when [support.cost] is on, finds the profile of [account.type] and
    the net amortized cost in every period.  On the empty list of periods
    the date series (under the same condition on [account.type]), the
    grouped series and the entity split return the empty slice and no
    error; the surcharge returns a number and no error, which for each of
    the three profiles is the minimum of the profile. *)
Theorem aggregations_total (results : list ResultByTime) :
  Forall wfPeriod results →
  (wfConfig results → ∃ out, aggregationForAWS results = Some (out, None))
  ∧ (∀ account, SupportCostThresholds account ≠ [] →
       Forall hasNetAmortizedCost results →
       ∃ cost, SupportCostForAWS account results = Some (cost, None))
  ∧ (∃ out, getGroupedAwsProducts results = Some (out, None))
  ∧ (∃ out, getEntityAwsProducts results = Some (out, None))
  ∧ (wfConfig [] → aggregationForAWS [] = Some ([], None))
  ∧ (∀ account, SupportCostThresholds account ≠ [] →
       ∃ cost, SupportCostForAWS account [] = Some (cost, None))
  ∧ (∀ t account, AwsAccounts !! t = Some account →
       SupportCostForAWS account [] = Some (MinSupportCost account, None))
  ∧ getGroupedAwsProducts [] = Some ([], None)
  ∧ getEntityAwsProducts [] = Some ([], None).
Proof.
  intros Hwf. split_and!.
  - intros Hcfg. unfold aggregationForAWS.
    destruct (supCostOf_is_Some _ Hwf Hcfg) as [s ->]. simpl.
    destruct (dateSeries_is_Some s _ Hwf) as [ret ->]. by eexists.
  - intros account Hne Hnac. by apply SupportCostForAWS_is_Some.
  - destruct (wfPeriods_read _ Hwf) as [views Hviews].
    destruct (getGroupedAwsProducts_reads _ _ Hviews) as (keys & _ & _ & ->).
    by eexists.
  - destruct (wfPeriods_read _ Hwf) as [views Hviews].
    destruct (getEntityAwsProducts_reads _ _ (readsGrouped_entity _ _ Hviews))
      as (keys & _ & _ & ->).
    by eexists.
  - intros Hcfg. unfold aggregationForAWS.
    destruct (supCostOf_is_Some [] (List.Forall_nil _) Hcfg) as [s ->]. done.
  - intros account Hne. by apply supportCostOfSum_is_Some.
  - intros t account. unfold AwsAccounts.
    rewrite !lookup_insert_Some, lookup_empty.
    intros [[_ <-]|[_ [[_ <-]|[_ [[_ <-]|[_ ?]]]]]];
      [vm_compute; reflexivity .. | done].
  - unfold getGroupedAwsProducts. simpl. by rewrite range_map_empty.
  - unfold getEntityAwsProducts. simpl. by rewrite range_map_empty.
Qed.

End Totality.

(** ** The theorems on example inputs *)

Lemma grouped_series_per_key_witness :
  ∃ out,
    @getGroupedAwsProducts (Runtime.ordered false false "BUSINESS")
      [ groupedPeriod "2021-01-01" [group "EC2" "10"];
        groupedPeriod "2021-01-02" [group "EC2" "-5"] ]
    = Some (out, None)
    ∧ out ≡ₚ [ {| PId := "EC2";
                  PAggregation :=
                    [ {| Date := "2021-01-01"; DAmount := 10 |} ] |} ].
Proof.
  destruct (@grouped_series_per_key (Runtime.ordered false false "BUSINESS")
              [ groupedPeriod "2021-01-01" [group "EC2" "10"];
                groupedPeriod "2021-01-02" [group "EC2" "-5"] ]
              [ ("2021-01-01", [("EC2", 10%float)]);
                ("2021-01-02", [("EC2", (-5)%float)]) ])
    as (keys & out & _ & Hrun & _ & Hperm & _).
  { reads_input. }
  exists out. split; [exact Hrun | exact Hperm].
Defined.

(** C6 as stated fails: the product costs of this run are not in the
    order in which the keys are first seen. *)
Lemma grouped_series_not_in_first_seen_order :
  ∃ out,
    @getGroupedAwsProducts (Runtime.ordered false false "BUSINESS") exampleGrouped
    = Some (out, None)
    ∧ PId <$> out = ["S3"; "EC2"; "RDS"]
    ∧ firstSeen ["EC2"; "S3"; "EC2"; "RDS"] = ["EC2"; "S3"; "RDS"]
    ∧ PId <$> out ≠ firstSeen ["EC2"; "S3"; "EC2"; "RDS"].
Proof.
  exists [ {| PId := "S3";
              PAggregation := [ {| Date := "2021-01-01"; DAmount := 3 |} ] |};
           {| PId := "EC2";
              PAggregation := [ {| Date := "2021-01-01"; DAmount := 10 |} ] |};
           {| PId := "RDS";
              PAggregation := [ {| Date := "2021-01-02"; DAmount := 1 |} ] |} ].
  split_and!; [vm_compute; reflexivity .. | ].
  vm_compute. discriminate.
Qed.

Lemma entity_two_period_split_witness :
  ∃ out,
    @getEntityAwsProducts (Runtime.ordered false false "BUSINESS") exampleEntities
    = Some (out, None)
    ∧ (λ e, (EId e, EAggregation e)) <$> out
      ≡ₚ [ ("EC2", [10; -55]%float); ("S3", [0; -3]%float) ].
Proof.
  destruct (@entity_two_period_split (Runtime.ordered false false "BUSINESS")
              exampleEntities
              [ [("EC2", 10%float); ("S3", 0%float)];
                [("EC2", (-5)%float); ("S3", (-3)%float); ("RDS", 0%float)];
                [("EC2", (-50)%float)] ])
    as (keys & out & _ & Hrun & _ & Hperm & _).
  { unfold readsEntity, exampleEntities. reads_input. }
  exists out. split; [exact Hrun|].
  rewrite Hperm. vm_compute. reflexivity.
Defined.

Lemma entity_buckets_keep_sign_witness :
  ∃ out,
    @getEntityAwsProducts (Runtime.ordered false false "BUSINESS") exampleEntities
    = Some (out, None)
    ∧ ("S3", [0; -3]%float) ∈ (λ e, (EId e, EAggregation e)) <$> out.
Proof.
  destruct (@entity_buckets_keep_sign (Runtime.ordered false false "BUSINESS")
              exampleEntities
              [ [("EC2", 10%float); ("S3", 0%float)];
                [("EC2", (-5)%float); ("S3", (-3)%float); ("RDS", 0%float)];
                [("EC2", (-50)%float)] ]
              "S3")
    as (_ & out & Hrun & Hin).
  - unfold readsEntity, exampleEntities. reads_input.
  - vm_compute. repeat constructor.
  - right. vm_compute. reflexivity.
  - exists out. split; [exact Hrun|].
    apply (list_elem_of_fmap_2 (λ e, (EId e, EAggregation e))) in Hin.
    exact Hin.
Defined.

Lemma aggregations_total_witness :
  (∃ out, @aggregationForAWS (Runtime.ordered true true "BUSINESS")
            [period "2021-01-01" "300"; period "2021-01-02" "450"]
          = Some (out, None))
  ∧ (∃ cost, @SupportCostForAWS (Runtime.ordered true true "BUSINESS")
               businessProfile
               [period "2021-01-01" "300"; period "2021-01-02" "450"]
             = Some (cost, None))
  ∧ (∃ out, @getGroupedAwsProducts (Runtime.ordered true true "BUSINESS")
              [period "2021-01-01" "300"; period "2021-01-02" "450"]
            = Some (out, None))
  ∧ (∃ out, @getEntityAwsProducts (Runtime.ordered true true "BUSINESS")
              [period "2021-01-01" "300"; period "2021-01-02" "450"]
            = Some (out, None))
  ∧ @aggregationForAWS (Runtime.ordered true true "BUSINESS") []
    = Some ([], None)
  ∧ @SupportCostForAWS (Runtime.ordered true true "BUSINESS")
      businessProfile [] = Some (100%float, None)
  ∧ @getGroupedAwsProducts (Runtime.ordered true true "BUSINESS") []
    = Some ([], None)
  ∧ @getEntityAwsProducts (Runtime.ordered true true "BUSINESS") []
    = Some ([], None).
Proof.
  destruct (@aggregations_total (Runtime.ordered true true "BUSINESS")
              [period "2021-01-01" "300"; period "2021-01-02" "450"])
    as (Hdates & Hsurcharge & Hproducts & Hentities
        & Hdates0 & _ & Hsurcharge0 & Hproducts0 & Hentities0).
  { repeat (reads_input; try unfold wfMetrics). }
  split_and!.
  - apply Hdates. intros _. split; [by eexists|].
    repeat apply List.Forall_cons; try apply List.Forall_nil; by eexists.
  - apply Hsurcharge; [discriminate|].
    repeat apply List.Forall_cons; try apply List.Forall_nil; by eexists.
  - exact Hproducts.
  - exact Hentities.
  - apply Hdates0. intros _. split; [by eexists | apply List.Forall_nil].
  - exact (Hsurcharge0 BusinessAccount businessProfile eq_refl).
  - exact Hproducts0.
  - exact Hentities0.
Defined.

(** C8 as stated fails.  With [support.cost] on and an [account.type]
    that names no profile, the date series panics on the empty list of
    periods.  With [support.cost] on and the Business profile, a period
    the code reads everywhere else, whose total holds the unblended cost
    only, makes the date series panic, and the surcharge with it.  On the
    empty list the surcharge of the Business profile is 100. *)
Lemma aggregations_fail_on_readable_input :
  @aggregationForAWS (Runtime.ordered false true "PREMIUM") [] = None
  ∧ Forall wfPeriod [unblendedPeriod "2021-01-01" "300"]
  ∧ @aggregationForAWS (Runtime.ordered false false "BUSINESS")
      [unblendedPeriod "2021-01-01" "300"]
    = Some ([ {| Date := "2021-01-01"; DAmount := 300 |} ], None)
  ∧ @aggregationForAWS (Runtime.ordered false true "BUSINESS")
      [unblendedPeriod "2021-01-01" "300"] = None
  ∧ @SupportCostForAWS (Runtime.ordered false true "BUSINESS")
      businessProfile [unblendedPeriod "2021-01-01" "300"] = None
  ∧ @SupportCostForAWS (Runtime.ordered false true "BUSINESS")
      businessProfile [] = Some (100%float, None)
  ∧ @SupportCostForAWS (Runtime.ordered false true "BUSINESS")
      businessProfile [] ≠ Some (0%float, None).
Proof.
  split_and!; try (vm_compute; reflexivity).
  - repeat (reads_input; try unfold wfMetrics).
  - intros H.
    apply (f_equal (λ r, match r with
                         | Some (x, _) => (x =? 0)%float
                         | None => true
                         end)) in H.
    vm_compute in H. discriminate.
Qed.

Lemma malformed_amount_is_zero_witness :
  @getAwsMetricAmount (Runtime.ordered true false "BUSINESS") (metric "n/a")
  = Some 0%float.
Proof.
  destruct (@malformed_amount_is_zero (Runtime.ordered true false "BUSINESS")
              (metric "n/a") "n/a") as [Hzero _].
  - reflexivity.
  - vm_compute. reflexivity.
  - exact Hzero.
Defined.

(** * Further properties of the code *)

(** ** Loops that stop at a panic *)

Section PanicLoops.

(** A loop whose steps are defined or not whatever the accumulator is
    runs to its end exactly when every step is defined. *)
Lemma foldlM_is_Some_Forall {A B : Type} (P : A → Prop)
    (f : B → A → option B) (l : list A) (b : B) :
  (∀ b a, is_Some (f b a) ↔ P a) →
  is_Some (foldlM f b l) ↔ Forall P l.
Proof.
  intros Hf. revert b. induction l as [|a l IH]; intros b; simpl.
  - split; [constructor | by eexists].
  - rewrite Forall_cons, <- (Hf b a). destruct (f b a) as [b'|]; simpl.
    + rewrite IH. split; [by split | by intros [_ ?]].
    + split; [by intros [? ?] | by intros [[? ?] _]].
Qed.

(** Every step of a loop that runs to its end is defined at the
    accumulator it meets. *)
Lemma foldlM_Some_steps {A B : Type} (f : B → A → option B) (l : list A)
    (b b' : B) :
  foldlM f b l = Some b' → Forall (λ a, ∃ b0, is_Some (f b0 a)) l.
Proof.
  revert b. induction l as [|a l IH]; intros b; simpl; [constructor|].
  destruct (f b a) as [b1|] eqn:Hstep; simpl; [|done].
  intros Hrest. constructor; [|by eapply IH].
  exists b. rewrite Hstep. by eexists.
Qed.

Lemma foldlM_invariant {A B : Type} (I : B → Prop) (f : B → A → option B)
    (l : list A) (b b' : B) :
  (∀ b a b1, I b → f b a = Some b1 → I b1) →
  I b → foldlM f b l = Some b' → I b'.
Proof.
  intros Hf. revert b. induction l as [|a l IH]; intros b Hb; simpl.
  - by intros [= <-].
  - destruct (f b a) as [b1|] eqn:Hstep; simpl; [|done].
    apply IH. by eapply Hf.
Qed.

End PanicLoops.

(** ** When the key indexer returns *)

Section KeyIndexMore.

Lemma keyIndexStep_is_Some (keys : gmap string nat) (g : Group) :
  is_Some (keyIndexStep keys g) ↔ Keys g ≠ [].
Proof.
  unfold keyIndexStep. destruct (Keys g) as [|k ks]; simpl.
  - split; [by intros [? ?] | done].
  - split; [done|]. intros _. destruct (keys !! k); by eexists.
Qed.

Lemma keyIndexStep_subseteq (keys keys' : gmap string nat) (g : Group) :
  keyIndexStep keys g = Some keys' → keys ⊆ keys'.
Proof.
  unfold keyIndexStep. destruct (Keys g !! 0) as [k|]; simpl; [|done].
  destruct (keys !! k) eqn:Hk; intros [= <-]; [done|].
  by apply insert_subseteq.
Qed.

Lemma keyIndexLoop_subseteq (groups : list Group) (keys keys' : gmap string nat) :
  foldlM keyIndexStep keys groups = Some keys' → keys ⊆ keys'.
Proof.
  apply (foldlM_invariant (λ m, keys ⊆ m)); [|done].
  intros m g m1 Hm Hstep. etrans; [exact Hm|]. by eapply keyIndexStep_subseteq.
Qed.

(** A key the loop adds gets a slot past the slots in use. *)
Lemma keyIndexLoop_fresh (groups : list Group) (keys keys' : gmap string nat)
    (k : string) (i : nat) :
  foldlM keyIndexStep keys groups = Some keys' →
  keys' !! k = Some i → keys !! k = None → size keys ≤ i.
Proof.
  revert keys. induction groups as [|g groups IH]; intros keys Hrun Hk' Hfresh;
    simpl in Hrun.
  - congruence.
  - destruct (keyIndexStep keys g) as [keys1|] eqn:Hstep; simpl in Hrun;
      [|done].
    pose proof (keyIndexStep_subseteq _ _ _ Hstep) as Hsub.
    destruct (keys1 !! k) as [j|] eqn:Hk1.
    + assert (j = i) as ->.
      { pose proof (lookup_weaken _ _ _ _ Hk1 (keyIndexLoop_subseteq _ _ _ Hrun)).
        congruence. }
      unfold keyIndexStep in Hstep.
      destruct (Keys g !! 0) as [k0|]; simpl in Hstep; [|done].
      destruct (keys !! k0) eqn:Hk0; injection Hstep as <-; [congruence|].
      apply lookup_insert_Some in Hk1 as [[-> <-]|[_ ?]]; [lia | congruence].
    + etrans; [|by apply (IH keys1)]. by apply map_subseteq_size.
Qed.

Lemma getGroupedAwsKeyIndex_is_Some_iff (results : list ResultByTime) :
  is_Some (getGroupedAwsKeyIndex results)
  ↔ Forall (λ r, Forall (λ g, Keys g ≠ []) (Groups r)) results.
Proof.
  unfold getGroupedAwsKeyIndex. rewrite foldlM_bind.
  rewrite (foldlM_is_Some_Forall (λ g, Keys g ≠ [])); [|apply keyIndexStep_is_Some].
  rewrite Forall_bind. done.
Qed.

(** X1: [getGroupedAwsKeyIndex] returns a map exactly when every group of
    every period has at least one key (otherwise [group.Keys[0]] is out of
    range), and the slots of the map it returns are [0], ..., [size - 1],
    each the slot of one key. *)
Theorem key_index_returns_iff (results : list ResultByTime) :
  (is_Some (getGroupedAwsKeyIndex results)
   ↔ Forall (λ r, Forall (λ g, Keys g ≠ []) (Groups r)) results)
  ∧ (∀ keys, getGroupedAwsKeyIndex results = Some keys →
       (∀ i, i < size keys ↔ ∃ k, keys !! k = Some i)
       ∧ (∀ k k' i, keys !! k = Some i → keys !! k' = Some i → k = k')).
Proof.
  split; [apply getGroupedAwsKeyIndex_is_Some_iff|].
  intros keys Hrun.
  assert (Hkeyed : Forall (λ r, Forall (λ g, Keys g ≠ []) (Groups r)) results).
  { apply getGroupedAwsKeyIndex_is_Some_iff. rewrite Hrun. by eexists. }
  assert (∃ ks, readsKeys results ks) as [ks Hks].
  { unfold readsKeys.
    assert (Hflat : Forall (λ g, Keys g ≠ []) (results ≫= Groups))
      by by apply Forall_bind.
    induction Hflat as [|g gs Hg _ [ks IH]]; [by exists []|].
    destruct (Keys g) as [|k rest] eqn:Hk; [done|].
    exists (k :: ks). constructor; [by rewrite Hk | done]. }
  destruct (getGroupedAwsKeyIndex_indexes _ _ Hks) as (keys0 & Hrun0 & Hinv).
  assert (keys0 = keys) as -> by congruence.
  destruct Hinv as [Hlookup Hsize]. split.
  - intros i. rewrite Hsize. setoid_rewrite Hlookup.
    symmetry. apply lookup_lt_is_Some.
  - intros k k' i Hk Hk'. apply Hlookup in Hk, Hk'. congruence.
Qed.

(** X2: periods added at the end leave the slots of the keys seen so far
    as they are. *)
Theorem key_index_append_stable (results more : list ResultByTime)
    (keys keys' : gmap string nat) :
  getGroupedAwsKeyIndex results = Some keys →
  getGroupedAwsKeyIndex (results ++ more) = Some keys' →
  keys ⊆ keys'
  ∧ (∀ k i, keys !! k = Some i → keys' !! k = Some i)
  ∧ (∀ k i, keys' !! k = Some i → keys !! k = None → size keys ≤ i).
Proof.
  unfold getGroupedAwsKeyIndex. rewrite !foldlM_bind, bind_app, foldlM_app.
  intros -> Hmore. simpl in Hmore.
  pose proof (keyIndexLoop_subseteq _ _ _ Hmore) as Hsub.
  split_and!; [done | |].
  - intros k i Hk. by eapply lookup_weaken.
  - intros k i Hk' Hfresh. by eapply keyIndexLoop_fresh.
Qed.

End KeyIndexMore.

(** ** More on the surcharge *)

Section SurchargeMore.
Context `{env : GoEnv}.

Lemma bind_is_Some {A B : Type} (x : option A) (f : A → option B) :
  is_Some (x ≫= f) ↔ ∃ a, x = Some a ∧ is_Some (f a).
Proof.
  destruct x as [a|]; simpl.
  - split; [by exists a | by intros (? & [= <-] & ?)].
  - split; [by intros [? ?] | by intros (? & ? & _)].
Qed.

Lemma sumStep_is_Some (sum : float) (r : ResultByTime) :
  is_Some (sumStep sum r) ↔ netCostRead r.
Proof.
  unfold sumStep, netCostRead.
  destruct (Amount _) as [amount|]; simpl.
  - split; intros _; by eexists.
  - split; by intros [? ?].
Qed.

Lemma supportCostOfSum_is_Some_iff (account : AwsAccount) (sum : float) :
  is_Some (supportCostOfSum account sum) ↔ SupportCostThresholds account ≠ [].
Proof.
  unfold supportCostOfSum.
  destruct (SupportCostThresholds account) as [|first rest]; simpl.
  - split; [by intros [? ?] | done].
  - split; [done|]. intros _. destruct (_ <? _)%float; by eexists.
Qed.

Lemma SupportCostForAWS_is_Some_iff (account : AwsAccount)
    (results : list ResultByTime) :
  is_Some (SupportCostForAWS account results)
  ↔ SupportCostThresholds account ≠ [] ∧ Forall netCostRead results.
Proof.
  unfold SupportCostForAWS, sumDateAggregationAmounts.
  rewrite bind_is_Some.
  rewrite <- (foldlM_is_Some_Forall netCostRead sumStep results 0%float
                sumStep_is_Some).
  setoid_rewrite supportCostOfSum_is_Some_iff. split.
  - intros (sum & -> & Hne). split; [done | by eexists].
  - intros [Hne [sum Hsum]]. by exists sum.
Qed.

(** X3: [SupportCostForAWS] returns exactly when the profile has at least
    one bracket and every period holds a net amortized cost whose amount
    is set; what it returns then is a number and a nil error. *)
Theorem surcharge_returns_iff (account : AwsAccount)
    (results : list ResultByTime) :
  (is_Some (SupportCostForAWS account results)
   ↔ SupportCostThresholds account ≠ [] ∧ Forall netCostRead results)
  ∧ (∀ cost err, SupportCostForAWS account results = Some (cost, err) →
       err = None).
Proof.
  split; [apply SupportCostForAWS_is_Some_iff|].
  intros cost err. unfold SupportCostForAWS, supportCostOfSum.
  destruct (sumDateAggregationAmounts results) as [sum|]; simpl; [|done].
  destruct (head _) as [first|]; simpl; [|done].
  destruct (_ <? _)%float; intros Heq;
    by apply (f_equal (λ r, match r with Some (_, e) => e | None => None end))
      in Heq.
Qed.

Lemma walkThresholds_passes (sum supportCost : float)
    (below rest : list SupportCostThreshold) :
  Forall (passes sum) below →
  walkThresholds sum supportCost (below ++ rest)
  = walkThresholds sum (foldl (passBracket sum) supportCost below) rest.
Proof.
  intros Hbelow. revert supportCost.
  induction Hbelow as [|t below (Hstart & Hend & Hup) _ IH]; intros supportCost;
    simpl; [done|].
  rewrite Hstart, Hend, Hup. simpl. unfold passBracket at 2.
  destruct (CostEndInterval t <? sum)%float; apply IH.
Qed.

(** X4: the walk over the brackets adds the span of every bracket that
    lies below the sum and ends at the first bracket that starts above the
    sum, adding nothing, or that holds the sum, adding the part of the sum
    above its start; the brackets after that one are not read. *)
Theorem surcharge_walk_closed_form (sum supportCost : float)
    (below : list SupportCostThreshold) :
  Forall (passes sum) below →
  walkThresholds sum supportCost below
  = foldl (passBracket sum) supportCost below
  ∧ (∀ t rest, (sum <? CostStartInterval t)%float = true →
       walkThresholds sum supportCost (below ++ t :: rest)
       = foldl (passBracket sum) supportCost below)
  ∧ (∀ t rest, holdsSum sum t →
       walkThresholds sum supportCost (below ++ t :: rest)
       = (foldl (passBracket sum) supportCost below
          + (sum - CostStartInterval t) * CostMultiplier t)%float).
Proof.
  intros Hbelow. split_and!.
  - rewrite <- (app_nil_r below) at 1. by rewrite walkThresholds_passes.
  - intros t rest Habove. rewrite walkThresholds_passes by done. simpl.
    by rewrite Habove.
  - intros t rest [Hstart Hholds]. rewrite walkThresholds_passes by done.
    simpl. rewrite Hstart.
    destruct (CostEndInterval t =? 0)%float eqn:Hend; simpl; [done|].
    destruct Hholds as [?|Hin]; [done|]. by rewrite Hin.
Qed.

End SurchargeMore.

Lemma surcharge_walk_closed_form_witness :
  walkThresholds 50000%float 0%float (SupportCostThresholds businessProfile)
  = (0 + (10000 - 0) * 0.10 + (50000 - 10000) * 0.07)%float.
Proof.
  destruct (surcharge_walk_closed_form 50000%float 0%float
              [mkThreshold 0.10 0 10000]) as (_ & _ & Hholds).
  { repeat constructor. }
  apply (Hholds (mkThreshold 0.07 10000 80000)
           [mkThreshold 0.05 80000 250000; mkThreshold 0.03 250000 0]).
  split; [reflexivity | right; reflexivity].
Defined.

(** ** More on the date series *)

Section DateSeriesMore.
Context `{env : GoEnv}.

Lemma range_map_Forall {A : Type} (P : A → Prop) (m : gmap string A) :
  Forall (λ e, P e.2) (range_map m) ↔ map_Forall (λ _, P) m.
Proof.
  rewrite Forall_forall. split.
  - intros Hall k x Hk. by apply (Hall (k, x)), elem_of_range_map.
  - intros Hall [k x] Hin. apply elem_of_range_map in Hin. by eapply Hall.
Qed.

Lemma getAwsMetricAmount_is_Some_iff (m : MetricValue) :
  is_Some (getAwsMetricAmount m) ↔ is_Some (Amount m).
Proof.
  unfold getAwsMetricAmount. destruct (Amount m) as [s|]; simpl.
  - split; [by eexists|]. intros _. destruct (GetBool "cost.round"); by eexists.
  - split; by intros [? ?].
Qed.

Lemma totalLoop_is_Some (s : float) (n : nat) (r : ResultByTime) (b : float) :
  is_Some (foldlM (totalStep s n) b (range_map (Total r)))
  ↔ wfMetrics (Total r).
Proof.
  unfold wfMetrics. rewrite <- range_map_Forall.
  apply foldlM_is_Some_Forall. intros b0 e. unfold totalStep.
  rewrite <- getAwsMetricAmount_is_Some_iff.
  destruct (getAwsMetricAmount e.2) as [amount|]; simpl.
  - split; intros _; by eexists.
  - split; by intros [? ?].
Qed.

Lemma dateStep_is_Some (s : float) (n : nat) (ret : list DateAggregation)
    (r : ResultByTime) :
  is_Some (dateStep s n ret r) ↔ datedPeriod r.
Proof.
  unfold dateStep, datedPeriod, startOf.
  rewrite <- (totalLoop_is_Some s n r 0%float).
  destruct (TimePeriod r) as [p|]; simpl; [|split; [by intros [? ?] | by intros [[? ?] _]]].
  destruct (Start p) as [d|]; simpl; [|split; [by intros [? ?] | by intros [[? ?] _]]].
  destruct (foldlM _ _ _) as [amount|]; simpl.
  - split; [by split; eexists|]. intros _. destruct (_ <? _)%float; by eexists.
  - split; [by intros [? ?] | by intros [_ [? ?]]].
Qed.

Lemma supCostOf_is_Some_iff (results : list ResultByTime) :
  is_Some (supCostOf results) ↔ surchargeRead results.
Proof.
  unfold supCostOf, surchargeRead.
  destruct (GetBool "support.cost"); [|split; [done | by eexists]].
  unfold AwsAccountType. cbv zeta. rewrite bind_is_Some.
  rewrite <- SupportCostForAWS_is_Some_iff. split.
  - intros (r & Hr & _) _. rewrite Hr. by eexists.
  - intros Hread. destruct (Hread eq_refl) as [r Hr]. exists r.
    split; [done | by eexists].
Qed.

Lemma date_series_returns_iff_lemma (results : list ResultByTime) :
  is_Some (aggregationForAWS results)
  ↔ surchargeRead results ∧ Forall datedPeriod results.
Proof.
  unfold aggregationForAWS, dateSeries.
  rewrite bind_is_Some, <- supCostOf_is_Some_iff. split.
  - intros (s & Hs & Hrun). rewrite Hs. split; [by eexists|].
    apply bind_is_Some in Hrun as (ret & Hret & _).
    apply (foldlM_is_Some_Forall datedPeriod (dateStep s (length results))
             results [] (dateStep_is_Some s (length results))).
    rewrite Hret. by eexists.
  - intros [[s Hs] Hdated]. exists s. split; [done|].
    apply (foldlM_is_Some_Forall datedPeriod (dateStep s (length results))
             results [] (dateStep_is_Some s (length results))) in Hdated
      as [ret ->].
    by eexists.
Qed.

(** X5: [aggregationForAWS] returns exactly when the surcharge can be
    computed (or is off) and every period has a start date and no metric
    of its total without amount; with [support.cost] off the account
    profile and the net amortized cost are not read. *)
Theorem date_series_returns_iff (results : list ResultByTime) :
  (is_Some (aggregationForAWS results)
   ↔ surchargeRead results ∧ Forall datedPeriod results)
  ∧ (GetBool "support.cost" = false →
     (is_Some (aggregationForAWS results) ↔ Forall datedPeriod results)).
Proof.
  split; [apply date_series_returns_iff_lemma|].
  intros Hoff. rewrite date_series_returns_iff_lemma. unfold surchargeRead.
  rewrite Hoff. split; [by intros [_ ?] | by split].
Qed.

Lemma omap_length_le {A B : Type} (f : A → option B) (l : list A) :
  length (omap f l) ≤ length l.
Proof.
  induction l as [|a l IH]; csimpl; [done|]. destruct (f a); simpl; lia.
Qed.

Lemma dateStep_Some (s : float) (n : nat) (ret ret1 : list DateAggregation)
    (r : ResultByTime) :
  dateStep s n ret r = Some ret1 →
  ∃ d, startOf r = Some d
    ∧ (ret1 = ret
       ∨ ∃ amount, (0 <? amount)%float = true
           ∧ ret1 = ret ++ [ {| Date := d; DAmount := amount |} ]).
Proof.
  unfold dateStep, startOf.
  destruct (TimePeriod r) as [p|]; simpl; [|done].
  destruct (Start p) as [d|]; simpl; [|done].
  destruct (foldlM _ _ _) as [amount|]; simpl; [|done].
  destruct (0 <? amount)%float eqn:Hpos; intros [= <-]; exists d;
    (split; [done|]); [right; by exists amount | by left].
Qed.

Lemma dateLoop_sound (s : float) (n : nat) (results : list ResultByTime)
    (ret out : list DateAggregation) :
  foldlM (dateStep s n) ret results = Some out →
  ∃ kept, out = ret ++ kept
    ∧ Forall (λ p, (0 <? DAmount p)%float = true) kept
    ∧ Date <$> kept `sublist_of` omap startOf results.
Proof.
  revert ret. induction results as [|r results IH]; intros ret; simpl.
  - intros [= <-]. exists []. by rewrite app_nil_r.
  - destruct (dateStep s n ret r) as [ret1|] eqn:Hstep; simpl; [|done].
    intros Hrun. destruct (IH _ Hrun) as (kept & -> & Hkept & Hdates).
    destruct (dateStep_Some _ _ _ _ _ Hstep)
      as (d & -> & [->|(amount & Hpos & ->)]); simpl.
    + exists kept. split_and!; [done | done |]. by apply sublist_cons.
    + exists ({| Date := d; DAmount := amount |} :: kept).
      rewrite <- app_assoc. split_and!; [done | by constructor |].
      simpl. by apply sublist_skip.
Qed.

(** X6: whatever the periods hold, the points [aggregationForAWS] returns
    have strictly positive amounts, their dates are start dates of the
    periods, in the order of the periods and at most one for each period,
    and the error is nil. *)
Theorem date_series_sound (results : list ResultByTime)
    (out : list DateAggregation) (err : option error) :
  aggregationForAWS results = Some (out, err) →
  err = None
  ∧ Forall (λ p, (0 <? DAmount p)%float = true) out
  ∧ Date <$> out `sublist_of` omap startOf results
  ∧ length out ≤ length results.
Proof.
  unfold aggregationForAWS, dateSeries.
  destruct (supCostOf results) as [s|]; simpl; [|done].
  destruct (foldlM _ [] results) as [ret|] eqn:Hrun; simpl; [|done].
  intros Heq.
  assert (ret = out) as -> by congruence.
  assert (err = None) as -> by congruence.
  destruct (dateLoop_sound _ _ _ _ _ Hrun) as (kept & -> & Hpos & Hdates).
  simpl. split_and!; [done | done | done |].
  apply sublist_length in Hdates. rewrite length_fmap in Hdates.
  etrans; [exact Hdates|]. apply omap_length_le.
Qed.

(** X14: with [support.cost] on, [aggregationForAWS] reads the first
    bracket of the profile of [account.type]: it returns on the empty list
    of periods exactly when [account.type] is the key of a profile, and
    with any other [account.type] it panics on every input. *)
Theorem unknown_account_type_panics (results : list ResultByTime) :
  GetBool "support.cost" = true →
  (is_Some (aggregationForAWS [])
   ↔ is_Some (AwsAccounts !! GetString "account.type"))
  ∧ (AwsAccounts !! GetString "account.type" = None →
     aggregationForAWS results = None).
Proof.
  intros Hon. split.
  - rewrite date_series_returns_iff_lemma. unfold surchargeRead. split.
    + intros [Hread _]. destruct (Hread Hon) as [Hne _].
      destruct (AwsAccounts !! GetString "account.type"); [by eexists | done].
    + intros [account Haccount]. split; [|constructor].
      intros _. rewrite Haccount. simpl. split; [|constructor].
      by eapply AwsAccounts_thresholds.
  - intros Hmissing. apply eq_None_not_Some.
    rewrite date_series_returns_iff_lemma. unfold surchargeRead.
    intros [Hread _]. destruct (Hread Hon) as [Hne _].
    rewrite Hmissing in Hne. done.
Qed.

End DateSeriesMore.

Lemma unknown_account_type_panics_witness :
  @aggregationForAWS (Runtime.ordered false true "PREMIUM") [] = None
  ∧ is_Some (@aggregationForAWS (Runtime.ordered false true "BUSINESS") []).
Proof.
  split.
  - apply (@unknown_account_type_panics (Runtime.ordered false true "PREMIUM")
             []); vm_compute; reflexivity.
  - apply (@unknown_account_type_panics (Runtime.ordered false true "BUSINESS")
             []); [vm_compute; reflexivity|].
    eexists. vm_compute. reflexivity.
Defined.

Lemma date_series_sound_witness :
  ∃ out,
    @aggregationForAWS (Runtime.ordered false true "BUSINESS")
      [period "2021-01-01" "5000"; period "2021-01-02" "-600"]
    = Some (out, None)
    ∧ Date <$> out `sublist_of` ["2021-01-01"; "2021-01-02"].
Proof.
  eexists. split; [vm_compute; reflexivity|].
  refine (proj1 (proj2 (proj2 (@date_series_sound
            (Runtime.ordered false true "BUSINESS")
            [period "2021-01-01" "5000"; period "2021-01-02" "-600"]
            _ None _)))).
  vm_compute. reflexivity.
Defined.

(** ** More on the grouped series *)

Section GroupedMore.
Context `{env : GoEnv}.

Lemma store_fmap {A B : Type} (h : A → B) (l : list A) (i : nat) (x : A) :
  store (h <$> l) i (h x) = (λ l' : list A, h <$> l') <$> store l i x.
Proof.
  unfold store. rewrite length_fmap. case_decide; simpl; [|done].
  by rewrite list_fmap_insert.
Qed.

(** Two loops whose steps agree through [h] agree through [h]. *)
Lemma foldlM_fmap {A B B' : Type} (h : B → B') (f : B → A → option B)
    (f' : B' → A → option B') (l : list A) (b : B) :
  (∀ b a, f' (h b) a = h <$> f b a) →
  foldlM f' (h b) l = h <$> foldlM f b l.
Proof.
  intros Hstep. revert b. induction l as [|a l IH]; intros b; simpl; [done|].
  rewrite Hstep. destruct (f b a); simpl; [apply IH | done].
Qed.

Lemma initProjectStep_fmap (costs : list (option ProductCost))
    (entry : string * nat) :
  initProjectStep (toProjectSlots costs) entry
  = toProjectSlots <$> initProductStep costs entry.
Proof.
  unfold initProjectStep, initProductStep, toProjectSlots.
  exact (store_fmap (λ cost : option ProductCost, toProject <$> cost) costs entry.2
           (Some {| PId := entry.1; PAggregation := [] |})).
Qed.

Lemma projectGroupStep_fmap (keys : gmap string nat) (r : ResultByTime)
    (costs : list (option ProductCost)) (g : Group) :
  projectGroupStep keys r (toProjectSlots costs) g
  = toProjectSlots <$> productGroupStep keys r costs g.
Proof.
  unfold projectGroupStep, productGroupStep, toProjectSlots.
  destruct (Keys g !! 0) as [k|]; simpl; [|done].
  rewrite list_lookup_fmap.
  destruct (costs !! default 0 (keys !! k)) as [cost|]; simpl; [|done].
  destruct (TimePeriod r) as [p|]; simpl; [|done].
  destruct (Start p) as [d|]; simpl; [|done].
  destruct (groupAmount g) as [amount|]; simpl; [|done].
  destruct (0 <? amount)%float; simpl.
  - destruct cost as [c|]; simpl; [|done].
    exact (store_fmap (λ cost : option ProductCost, toProject <$> cost) costs _
             (Some {| PId := PId c;
                      PAggregation := PAggregation c
                        ++ [ {| Date := d; DAmount := amount |} ] |})).
  - exact (store_fmap (λ cost : option ProductCost, toProject <$> cost) costs _ cost).
Qed.

Lemma projectFilterStep_fmap (costs : list (option ProductCost))
    (acc : list ProductCost) (entry : string * nat) :
  projectFilterStep (toProjectSlots costs) (toProjects acc) entry
  = toProjects <$> productFilterStep costs acc entry.
Proof.
  unfold projectFilterStep, productFilterStep, toProjectSlots, toProjects.
  rewrite list_lookup_fmap.
  destruct (costs !! entry.2) as [[c|]|]; simpl; [|done|done].
  case_decide; simpl; [|done]. by rewrite fmap_app.
Qed.

Lemma getGroupedAwsProjects_products (results : list ResultByTime) :
  getGroupedAwsProjects results
  = (λ r, (toProjects r.1, r.2)) <$> getGroupedAwsProducts results.
Proof.
  unfold getGroupedAwsProjects, getGroupedAwsProducts.
  destruct (getGroupedAwsKeyIndex results) as [keys|]; simpl; [|done].
  replace (replicate (size keys) (None : option ProjectCost))
    with (toProjectSlots (replicate (size keys) None))
    by (unfold toProjectSlots; by rewrite fmap_replicate).
  rewrite (foldlM_fmap toProjectSlots initProductStep)
    by apply initProjectStep_fmap.
  destruct (foldlM initProductStep _ _) as [costs0|]; simpl; [|done].
  rewrite (foldlM_fmap toProjectSlots
             (λ costs r, foldlM (productGroupStep keys r) costs (Groups r))).
  2: { intros b r.
       apply (foldlM_fmap toProjectSlots (productGroupStep keys r)).
       intros b0 g. apply projectGroupStep_fmap. }
  destruct (foldlM _ costs0 results) as [costs|]; simpl; [|done].
  change (@nil ProjectCost) with (toProjects []).
  rewrite (foldlM_fmap toProjects (productFilterStep costs))
    by (intros; apply projectFilterStep_fmap).
  by destruct (foldlM (productFilterStep costs) _ _).
Qed.

(** X7: [getGroupedAwsProjects] is [getGroupedAwsProducts] with project
    costs for product costs: on every input both panic, or both return
    the same ids with the same series in the same order and a nil error. *)
Theorem projects_as_products (results : list ResultByTime) :
  getGroupedAwsProjects results
  = (λ r, (toProjects r.1, r.2)) <$> getGroupedAwsProducts results
  ∧ (is_Some (getGroupedAwsProjects results)
     ↔ is_Some (getGroupedAwsProducts results))
  ∧ (∀ products err, getGroupedAwsProducts results = Some (products, err) →
       getGroupedAwsProjects results = Some (toProjects products, None)
       ∧ JId <$> toProjects products = PId <$> products
       ∧ JAggregation <$> toProjects products = PAggregation <$> products).
Proof.
  pose proof (getGroupedAwsProjects_products results) as Heq.
  split_and!; [done | |].
  - rewrite Heq. apply fmap_is_Some.
  - intros products err Hrun. rewrite Heq, Hrun. simpl.
    assert (err = None) as ->.
    { unfold getGroupedAwsProducts in Hrun.
      destruct (getGroupedAwsKeyIndex results); simpl in Hrun; [|done].
      destruct (foldlM initProductStep _ _); simpl in Hrun; [|done].
      destruct (foldlM _ _ results); simpl in Hrun; [|done].
      destruct (foldlM _ _ (range_map _)); simpl in Hrun; [|done].
      congruence. }
    unfold toProjects. rewrite <- !list_fmap_compose. done.
Qed.

Lemma bind_filter_nonempty {A B : Type} (P : A → Prop)
    `{∀ a, Decision (P a)} (g : A → list B) (l : list A) :
  (∀ a, ¬ P a → g a = []) → filter P l ≫= g = l ≫= g.
Proof.
  intros Hg. induction l as [|a l IH]; [done|].
  rewrite filter_cons. case_decide as Ha; csimpl; [by rewrite IH|].
  by rewrite (Hg a Ha), IH.
Qed.

Lemma grouped_without_empty_periods (results : list ResultByTime) :
  let kept := filter (λ r, 0 < length (Groups r)) results in
  getGroupedAwsKeyIndex kept = getGroupedAwsKeyIndex results
  ∧ getGroupedAwsProducts kept = getGroupedAwsProducts results
  ∧ getGroupedAwsProjects kept = getGroupedAwsProjects results.
Proof.
  intros kept.
  assert (Hkeys : getGroupedAwsKeyIndex kept = getGroupedAwsKeyIndex results).
  { unfold getGroupedAwsKeyIndex, kept. rewrite !foldlM_bind.
    rewrite bind_filter_nonempty; [done|].
    intros r Hr. destruct (Groups r); [done | simpl in Hr; lia]. }
  assert (Hproducts : getGroupedAwsProducts kept = getGroupedAwsProducts results).
  { unfold getGroupedAwsProducts. rewrite Hkeys.
    destruct (getGroupedAwsKeyIndex results) as [keys|]; simpl; [|done].
    destruct (foldlM initProductStep _ _) as [costs0|]; simpl; [|done].
    rewrite !(foldlM_pairs (λ r costs g, productGroupStep keys r costs g)).
    unfold kept. rewrite bind_filter_nonempty; [done|].
    intros r Hr. destruct (Groups r); [done | simpl in Hr; lia]. }
  split_and!; [done | done |].
  by rewrite !getGroupedAwsProjects_products, Hproducts.
Qed.

(** X8: a period without groups has no part in the grouped series: with
    or without such periods the key index, the product costs and the
    project costs are the same, also when the period has no start date. *)
Theorem grouped_ignores_empty_periods (results : list ResultByTime) :
  getGroupedAwsKeyIndex (filter (λ r, 0 < length (Groups r)) results)
  = getGroupedAwsKeyIndex results
  ∧ getGroupedAwsProducts (filter (λ r, 0 < length (Groups r)) results)
    = getGroupedAwsProducts results
  ∧ getGroupedAwsProjects (filter (λ r, 0 < length (Groups r)) results)
    = getGroupedAwsProjects results
  ∧ (∀ r, Groups r = [] →
       getGroupedAwsProducts (results ++ [r]) = getGroupedAwsProducts results).
Proof.
  destruct (grouped_without_empty_periods results) as (Hkeys & Hproducts & Hprojects).
  split_and!; [done | done | done |].
  intros r Hr.
  rewrite <- (proj1 (proj2 (grouped_without_empty_periods (results ++ [r])))).
  rewrite <- Hproducts. rewrite filter_app, filter_cons, filter_nil.
  rewrite decide_False by (rewrite Hr; simpl; lia). by rewrite app_nil_r.
Qed.

End GroupedMore.

Section GroupedSound.
Context `{env : GoEnv}.

Lemma omap_fst_sublist {A B : Type} (f : string → option B) (id : B → string)
    (l : list (string * A)) :
  (∀ k b, f k = Some b → id b = k) →
  id <$> omap (λ e, f e.1) l `sublist_of` l.*1.
Proof.
  intros Hid. induction l as [|e l IH]; csimpl; [done|].
  destruct (f e.1) as [b|] eqn:Hb; csimpl.
  - rewrite (Hid _ _ Hb). by apply sublist_skip.
  - by apply sublist_cons.
Qed.

Lemma range_map_NoDup_fst {A : Type} (m : gmap string A) :
  NoDup (range_map m).*1.
Proof. rewrite range_map_perm. apply NoDup_fst_map_to_list. Qed.

Lemma elem_of_entriesOf {D : Type} (views : list (D * list (string * float)))
    (e : D * (string * float)) :
  e ∈ entriesOf views → e.1 ∈ views.*1.
Proof.
  unfold entriesOf. intros (v & Hv & He)%list_elem_of_bind.
  apply list_elem_of_fmap in Hv as (ga & -> & _). simpl.
  apply list_elem_of_fmap. by exists v.
Qed.

Lemma elem_of_seriesOf (k : string) (es : list (string * (string * float)))
    (pt : DateAggregation) :
  pt ∈ seriesOf k es →
  (0 <? DAmount pt)%float = true
  ∧ (Date pt, (k, DAmount pt)) ∈ es.
Proof.
  unfold seriesOf. intros ([d [k' a]] & He & Hpt)%list_elem_of_omap.
  unfold pointFor in Hpt. simpl in Hpt.
  case_decide as Hk; [|done]. subst k'.
  destruct (0 <? a)%float eqn:Hpos; [|done].
  injection Hpt as <-. done.
Qed.

(** X9: on periods it can read, the grouped series has no two product
    costs with the same id, no empty series and no point that is not
    strictly positive; every point is the amount of a group with the id
    as its first key, under the start date of the period of that group. *)
Theorem grouped_series_sound (results : list ResultByTime)
    (views : list (string * list (string * float)))
    (out : list ProductCost) (err : option error) :
  Forall2 readsGrouped results views →
  getGroupedAwsProducts results = Some (out, err) →
  err = None
  ∧ NoDup (PId <$> out)
  ∧ length out ≤ length (firstSeen (keysOf views))
  ∧ ∀ p, p ∈ out →
      PAggregation p ≠ []
      ∧ ∀ pt, pt ∈ PAggregation p →
          (0 <? DAmount pt)%float = true
          ∧ (Date pt, (PId p, DAmount pt)) ∈ entriesOf views
          ∧ Date pt ∈ views.*1.
Proof.
  intros Hreads Hrun.
  destruct (getGroupedAwsProducts_reads _ _ Hreads) as (keys & _ & Hinv & Hspec).
  rewrite Hspec in Hrun.
  assert (out = omap (λ e, productOf (entriesOf views) e.1) (range_map keys))
    as -> by congruence.
  assert (err = None) as -> by congruence.
  assert (Hid : ∀ k p, productOf (entriesOf views) k = Some p → PId p = k).
  { intros k p. unfold productOf. case_decide; [|done]. by intros [= <-]. }
  split_and!; [done | | |].
  - apply (sublist_NoDup _ (range_map keys).*1);
      first [ by apply (omap_fst_sublist (productOf (entriesOf views)) PId)
            | apply range_map_NoDup_fst ].
  - etrans; [apply omap_length_le|].
    rewrite <- (length_fmap fst), (range_map_keys _ _ Hinv). done.
  - intros p ([k i] & _ & Hp)%list_elem_of_omap. simpl in Hp.
    unfold productOf in Hp. case_decide as Hlen; [|done].
    injection Hp as <-. simpl. split.
    + intros Hnil. rewrite Hnil in Hlen. simpl in Hlen. lia.
    + intros pt [Hpos Hin]%elem_of_seriesOf. split_and!; [done | done |].
      by apply (elem_of_entriesOf views (Date pt, (k, DAmount pt))).
Qed.

Lemma groupAmount_is_Some_iff (g : Group) :
  is_Some (groupAmount g) ↔ wfMetrics (Metrics g).
Proof.
  unfold groupAmount, wfMetrics. rewrite <- range_map_Forall.
  apply foldlM_is_Some_Forall. intros b e. unfold metricStep.
  apply getAwsMetricAmount_is_Some_iff.
Qed.

Lemma productGroupStep_is_Some (keys : gmap string nat) (r : ResultByTime)
    (costs : list (option ProductCost)) (g : Group) :
  is_Some (productGroupStep keys r costs g) →
  is_Some (startOf r) ∧ wfMetrics (Metrics g).
Proof.
  unfold productGroupStep, startOf. rewrite <- groupAmount_is_Some_iff.
  destruct (Keys g !! 0); simpl; [|by intros [? ?]].
  destruct (costs !! _); simpl; [|by intros [? ?]].
  destruct (TimePeriod r) as [p|]; simpl; [|by intros [? ?]].
  destruct (Start p) as [d|]; simpl; [|by intros [? ?]].
  destruct (groupAmount g); simpl; [|by intros [? ?]].
  intros _. split; by eexists.
Qed.

Lemma groupedPeriodRead_reads (results : list ResultByTime) :
  Forall groupedPeriodRead results →
  ∃ views,
    Forall2 readsGrouped (filter (λ r, 0 < length (Groups r)) results) views.
Proof.
  induction 1 as [|r results [Hgroups Hdate] _ [views IH]]; [by exists []|].
  rewrite filter_cons. case_decide as Hlen; [|by exists views].
  destruct Hdate as [date Hdate].
  { intros Hnil. rewrite Hnil in Hlen. simpl in Hlen. lia. }
  destruct (wfGroups_read _ Hgroups) as [gv Hgv].
  exists ((date, gv) :: views). constructor; [|done]. split; [|done].
  simpl. unfold startOf in Hdate.
  destruct (TimePeriod r) as [[start]|]; simpl in Hdate; [|done].
  by rewrite Hdate.
Qed.

(** X10: [getGroupedAwsProducts] returns exactly when every group has a
    first key and no metric without amount, and every period that has a
    group has a start date. *)
Theorem grouped_series_returns_iff (results : list ResultByTime) :
  is_Some (getGroupedAwsProducts results)
  ↔ Forall groupedPeriodRead results.
Proof.
  split.
  - intros [out Hrun]. unfold getGroupedAwsProducts in Hrun.
    destruct (getGroupedAwsKeyIndex results) as [keys|] eqn:Hkeys;
      simpl in Hrun; [|done].
    destruct (foldlM initProductStep _ _) as [costs0|]; simpl in Hrun; [|done].
    rewrite (foldlM_pairs (λ r costs g, productGroupStep keys r costs g))
      in Hrun.
    destruct (foldlM _ costs0 _) as [costs|] eqn:Hloop; simpl in Hrun; [|done].
    apply foldlM_Some_steps in Hloop. rewrite Forall_forall in Hloop.
    assert (Hkeyed : Forall (λ r, Forall (λ g, Keys g ≠ []) (Groups r)) results).
    { apply getGroupedAwsKeyIndex_is_Some_iff. rewrite Hkeys. by eexists. }
    rewrite Forall_forall in Hkeyed.
    apply Forall_forall. intros r Hr.
    assert (Hpair : ∀ g, g ∈ Groups r →
              is_Some (startOf r) ∧ wfMetrics (Metrics g)).
    { intros g Hg. destruct (Hloop (r, g)) as [c Hc].
      - apply list_elem_of_bind. exists r. split; [|done].
        apply list_elem_of_fmap. by exists g.
      - by eapply productGroupStep_is_Some. }
    split.
    + apply Forall_forall. intros g Hg. split; [|by apply Hpair].
      specialize (Hkeyed r Hr). rewrite Forall_forall in Hkeyed.
      by apply Hkeyed.
    + intros Hne. destruct (Groups r) as [|g gs] eqn:Hgroups; [done|].
      apply (Hpair g). apply list_elem_of_here.
  - intros Hread.
    destruct (groupedPeriodRead_reads _ Hread) as [views Hviews].
    destruct (getGroupedAwsProducts_reads _ _ Hviews) as (keys & _ & _ & Hrun).
    rewrite <- (proj1 (proj2 (grouped_without_empty_periods results))).
    rewrite Hrun. by eexists.
Qed.

End GroupedSound.

(** ** More on the entities *)

Section EntitiesMore.
Context `{env : GoEnv}.

Lemma elem_of_indexed {A : Type} (l : list A) (a : A) :
  a ∈ l → ∃ i, (i, a) ∈ indexed l.
Proof.
  intros [i Hi]%list_elem_of_lookup. exists i.
  apply list_elem_of_lookup. exists i. unfold indexed.
  rewrite lookup_zip_with, lookup_seq_lt by by eapply lookup_lt_Some.
  simpl. by rewrite Hi.
Qed.

Lemma entityGroupStep_is_Some (keys : gmap string nat) (mid i : nat)
    (costs : list (option Entity)) (g : Group) :
  is_Some (entityGroupStep keys mid i costs g) → wfMetrics (Metrics g).
Proof.
  rewrite <- groupAmount_is_Some_iff. unfold entityGroupStep.
  destruct (groupAmount g); simpl; [by eexists | by intros [? ?]].
Qed.

Lemma wfGroups_readsEntity (results : list ResultByTime) :
  Forall (λ r, Forall wfGroup (Groups r)) results →
  ∃ gviews, readsEntity results gviews.
Proof.
  unfold readsEntity.
  induction 1 as [|r results Hgroups _ [gviews IH]]; [by exists []|].
  destruct (wfGroups_read _ Hgroups) as [gv Hgv].
  exists (gv :: gviews). by constructor.
Qed.

Lemma getEntityAwsProducts_is_Some_iff (results : list ResultByTime) :
  is_Some (getEntityAwsProducts results)
  ↔ Forall (λ r, Forall wfGroup (Groups r)) results.
Proof.
  split.
  - intros [out Hrun]. unfold getEntityAwsProducts in Hrun.
    destruct (getGroupedAwsKeyIndex results) as [keys|] eqn:Hkeys;
      simpl in Hrun; [|done].
    destruct (foldlM initEntityStep _ _) as [costs0|]; simpl in Hrun; [|done].
    rewrite (foldlM_pairs
               (λ ir costs g,
                  entityGroupStep keys (length results / 2) ir.1 costs g)
               (λ ir, Groups ir.2)) in Hrun.
    destruct (foldlM _ costs0 _) as [costs|] eqn:Hloop; simpl in Hrun; [|done].
    apply foldlM_Some_steps in Hloop. rewrite Forall_forall in Hloop.
    assert (Hkeyed : Forall (λ r, Forall (λ g, Keys g ≠ []) (Groups r)) results).
    { apply getGroupedAwsKeyIndex_is_Some_iff. rewrite Hkeys. by eexists. }
    rewrite Forall_forall in Hkeyed.
    apply Forall_forall. intros r Hr. apply Forall_forall. intros g Hg. split.
    + specialize (Hkeyed r Hr). rewrite Forall_forall in Hkeyed.
      by apply Hkeyed.
    + destruct (elem_of_indexed _ _ Hr) as [i Hi].
      destruct (Hloop ((i, r), g)) as [c Hc].
      * apply list_elem_of_bind. exists (i, r). split; [|done].
        apply list_elem_of_fmap. by exists g.
      * by eapply entityGroupStep_is_Some.
  - intros Hwf. destruct (wfGroups_readsEntity _ Hwf) as [gviews Hreads].
    destruct (getEntityAwsProducts_reads _ _ Hreads) as (keys & _ & _ & ->).
    by eexists.
Qed.

(** What [getEntityAwsProducts] returns, whatever the input. *)
Lemma getEntityAwsProducts_sound (results : list ResultByTime)
    (out : list Entity) (err : option error) :
  getEntityAwsProducts results = Some (out, err) →
  err = None
  ∧ NoDup (EId <$> out)
  ∧ Forall (λ e, ∃ before after,
              EAggregation e = [before; after]
              ∧ bothZero before after = false
              ∧ EChange e = ChangeOfEntity [before; after]) out.
Proof.
  intros Hrun.
  assert (Hwf : Forall (λ r, Forall wfGroup (Groups r)) results).
  { apply getEntityAwsProducts_is_Some_iff. rewrite Hrun. by eexists. }
  destruct (wfGroups_readsEntity _ Hwf) as [gviews Hreads].
  destruct (getEntityAwsProducts_reads _ _ Hreads) as (keys & _ & Hinv & Hspec).
  rewrite Hspec in Hrun.
  assert (out = omap (λ e, entityOf (length results / 2) gviews e.1)
                  (range_map keys)) as -> by congruence.
  assert (err = None) as -> by congruence.
  split_and!; [done | |].
  - apply (sublist_NoDup _ (range_map keys).*1);
      first [ apply (omap_fst_sublist
                       (entityOf (length results / 2) gviews) EId)
            | apply range_map_NoDup_fst ].
    intros k e [_ ->]%entityOf_Some. done.
  - apply Forall_forall.
    intros e ([k i] & _ & [Hnz ->]%entityOf_Some)%list_elem_of_omap.
    by eexists _, _.
Qed.

(** X11: [getEntityAwsProducts] returns exactly when every group has a
    first key and no metric without amount; the start dates are not
    read. *)
Theorem entities_return_iff (results : list ResultByTime) :
  is_Some (getEntityAwsProducts results)
  ↔ Forall (λ r, Forall wfGroup (Groups r)) results.
Proof. apply getEntityAwsProducts_is_Some_iff. Qed.

(** X12: whatever the periods hold, the entities [getEntityAwsProducts]
    returns have pairwise distinct ids and exactly two bucket totals that
    are not both zero, their change is the change of these two totals,
    and the error is nil. *)
Theorem entities_sound (results : list ResultByTime)
    (out : list Entity) (err : option error) :
  getEntityAwsProducts results = Some (out, err) →
  err = None
  ∧ NoDup (EId <$> out)
  ∧ (∀ e, e ∈ out →
       length (EAggregation e) = 2
       ∧ ∃ before after,
           EAggregation e = [before; after]
           ∧ ((before =? 0)%float = false ∨ (after =? 0)%float = false)
           ∧ EChange e = ChangeOfEntity [before; after]).
Proof.
  intros Hrun.
  destruct (getEntityAwsProducts_sound _ _ _ Hrun) as (Herr & Hnd & Hall).
  split_and!; [done | done |].
  intros e He. rewrite Forall_forall in Hall.
  destruct (Hall e He) as (before & after & Hagg & Hnz & Hchange).
  split; [by rewrite Hagg|]. exists before, after.
  split_and!; [done | | done].
  unfold bothZero in Hnz. by apply andb_false_iff.
Qed.

Lemma aggregateLoop (entities : list Entity) (totals : float * float) :
  Forall (λ e, length (EAggregation e) = 2) entities →
  foldlM aggregateStep totals entities
  = Some (foldl (λ acc a, (acc + a)%float) totals.1
            (omap (λ e, EAggregation e !! 0) entities),
          foldl (λ acc a, (acc + a)%float) totals.2
            (omap (λ e, EAggregation e !! 1) entities)).
Proof.
  intros Hall. revert totals.
  induction Hall as [|e entities Hlen _ IH]; intros [t0 t1]; csimpl; [done|].
  destruct (EAggregation e) as [|before [|after [|? ?]]] eqn:Hagg; try done.
  assert (Hstep : aggregateStep (t0, t1) e
                  = Some ((t0 + before)%float, (t1 + after)%float))
    by (unfold aggregateStep; by rewrite Hagg).
  rewrite Hstep. simpl. by rewrite IH.
Qed.

(** X13: [GetProductInsights] gets an entity from every response from
    which [getEntityAwsProducts] gets the entities of the product: the
    loop that adds their totals reads no index out of range.  The entity
    holds these entities, and its two totals are their first totals and
    their second totals, each added to [0] in the order of the
    entities. *)
Theorem product_insights_totals (product : string)
    (results : list ResultByTime) :
  (is_Some (productInsightsOf product results)
   ↔ is_Some (getEntityAwsProducts results))
  ∧ (∀ entities err,
       getEntityAwsProducts results = Some (entities, err) →
       let befores := omap (λ e, EAggregation e !! 0) entities in
       let afters := omap (λ e, EAggregation e !! 1) entities in
       length befores = length entities
       ∧ length afters = length entities
       ∧ productInsightsOf product results
         = Some ({| IId := product;
                    IAggregation := [bucketTotal befores; bucketTotal afters];
                    IChange := Some (ChangeOfEntity
                                       [bucketTotal befores;
                                        bucketTotal afters]);
                    IService := Some entities |}, None)).
Proof.
  assert (Hrun : ∀ entities err,
            getEntityAwsProducts results = Some (entities, err) →
            err = None
            ∧ Forall (λ e, length (EAggregation e) = 2) entities).
  { intros entities err Hrun.
    destruct (getEntityAwsProducts_sound _ _ _ Hrun) as (Herr & _ & Hall).
    split; [done|]. eapply Forall_impl; [exact Hall|].
    intros e (before & after & -> & _). done. }
  split.
  - unfold productInsightsOf.
    destruct (getEntityAwsProducts results) as [[entities err]|] eqn:Hentities;
      simpl; [|done].
    destruct (Hrun _ _ eq_refl) as [-> Hall].
    rewrite (aggregateLoop _ _ Hall). simpl. split; intros _; by eexists.
  - intros entities err Hentities befores afters.
    destruct (Hrun _ _ Hentities) as [-> Hall].
    split_and!.
    + unfold befores. clear -Hall.
      induction Hall as [|e l Hlen _ IH]; csimpl; [done|].
      destruct (EAggregation e) as [|? ?]; [done|]. simpl. by rewrite IH.
    + unfold afters. clear -Hall.
      induction Hall as [|e l Hlen _ IH]; csimpl; [done|].
      destruct (EAggregation e) as [|? [|? ?]]; [done | done |].
      simpl. by rewrite IH.
    + unfold productInsightsOf. rewrite Hentities. simpl.
      by rewrite (aggregateLoop _ _ Hall).
Qed.

End EntitiesMore.

(** ** The further properties on example inputs *)

Lemma key_index_append_stable_witness :
  ∃ keys keys',
    getGroupedAwsKeyIndex
      [groupedPeriod "2021-01-01" [group "EC2" "10"; group "S3" "3"]]
    = Some keys
    ∧ getGroupedAwsKeyIndex
        ([groupedPeriod "2021-01-01" [group "EC2" "10"; group "S3" "3"]]
         ++ [groupedPeriod "2021-01-02" [group "RDS" "1"; group "EC2" "-5"]])
      = Some keys'
    ∧ keys ⊆ keys'.
Proof.
  destruct (getGroupedAwsKeyIndex
              [groupedPeriod "2021-01-01" [group "EC2" "10"; group "S3" "3"]])
    as [keys|] eqn:Hfirst.
  - destruct (getGroupedAwsKeyIndex
                ([groupedPeriod "2021-01-01" [group "EC2" "10"; group "S3" "3"]]
                 ++ [groupedPeriod "2021-01-02"
                       [group "RDS" "1"; group "EC2" "-5"]]))
      as [keys'|] eqn:Hboth.
    + exists keys, keys'. split; [reflexivity|]. split; [reflexivity|].
      exact (proj1 (key_index_append_stable _ _ _ _ Hfirst Hboth)).
    + exfalso.
      apply (f_equal (λ r, match r with Some _ => true | None => false end))
        in Hboth.
      vm_compute in Hboth. discriminate.
  - exfalso.
    apply (f_equal (λ r, match r with Some _ => true | None => false end))
      in Hfirst.
    vm_compute in Hfirst. discriminate.
Defined.

Lemma grouped_series_sound_witness :
  ∃ out,
    @getGroupedAwsProducts (Runtime.ordered false false "BUSINESS")
      exampleGrouped
    = Some (out, None)
    ∧ NoDup (PId <$> out).
Proof.
  eexists. split; [vm_compute; reflexivity|].
  refine (proj1 (proj2 (@grouped_series_sound
            (Runtime.ordered false false "BUSINESS") exampleGrouped
            [ ("2021-01-01", [("EC2", 10%float); ("S3", 3%float)]);
              ("2021-01-02", [("EC2", (-5)%float); ("RDS", 1%float)]) ]
            _ None _ _))).
  - unfold exampleGrouped. reads_input.
  - vm_compute. reflexivity.
Defined.

Lemma entities_sound_witness :
  ∃ out,
    @getEntityAwsProducts (Runtime.ordered false false "BUSINESS")
      exampleEntities
    = Some (out, None)
    ∧ NoDup (EId <$> out).
Proof.
  destruct (@getEntityAwsProducts (Runtime.ordered false false "BUSINESS")
              exampleEntities) as [[out err]|] eqn:Hrun.
  - destruct (@entities_sound (Runtime.ordered false false "BUSINESS")
                exampleEntities out err Hrun) as (-> & Hnd & _).
    exists out. split; [reflexivity | exact Hnd].
  - exfalso.
    apply (f_equal (λ r, match r with Some _ => true | None => false end))
      in Hrun.
    vm_compute in Hrun. discriminate.
Defined.
